(** * Broadcast hub of stravigor/signal: model and verification

    A shallow embedding of [src/broadcast/broadcast_manager.ts] (the
    server-side hub) and [src/broadcast/client.ts] (the browser client).

    Conventions of the embedding:
    - a JavaScript [Set] that the code iterates is an insertion-ordered
      list without repetition ([JsSet]); a [Map] that the code iterates is
      an insertion-ordered association list ([JsMap]); a [Map] that is only
      read, written and deleted by key is a [gmap];
    - strings are ASCII strings; JSON text frames are values of the
      envelope types of [Wire];
    - code that can throw runs in a state-and-exception monad [M];
    - an [async] function runs to completion without interleaving: an
      [await] is the sequential composition of the monad. The one
      suspension the development follows is that of [handleSubscribe],
      which awaits the authorization callback ([Hub.async_run]). *)

From Stdlib Require Import Ascii.
From stdpp Require Import base option list strings gmap fin_maps.

Open Scope string_scope.
Open Scope list_scope.

(** ** JavaScript containers *)

Module JsSet.
Section Ops.
Context {A : Type} `{EqDecision A}.

(** [Set.prototype.has] *)
Definition has (x : A) (s : list A) : bool := bool_decide (x ∈ s).

(** [Set.prototype.add]: a new element goes last, a present one stays put. *)
Definition add (x : A) (s : list A) : list A :=
  if has x s then s else s ++ [x].

(** [Set.prototype.delete] *)
Definition delete (x : A) (s : list A) : list A :=
  filter (λ y, y ≠ x) s.

(** [Set.prototype.size] *)
Definition size (s : list A) : nat := List.length s.

End Ops.
End JsSet.

Module JsMap.
Section Ops.
Context {K V : Type} `{EqDecision K}.

(** [Map.prototype.get] *)
Fixpoint get (k : K) (m : list (K * V)) : option V :=
  match m with
  | [] => None
  | (k', v) :: m' => if decide (k' = k) then Some v else get k m'
  end.

(** [Map.prototype.set]: an existing key keeps its position. *)
Fixpoint set (k : K) (v : V) (m : list (K * V)) : list (K * V) :=
  match m with
  | [] => [(k, v)]
  | (k', v') :: m' =>
      if decide (k' = k) then (k, v) :: m' else (k', v') :: set k v m'
  end.

(** [Map.prototype.delete] *)
Definition delete (k : K) (m : list (K * V)) : list (K * V) :=
  filter (λ kv, kv.1 ≠ k) m.

(** [Map.prototype.keys], in iteration order. *)
Definition keys (m : list (K * V)) : list K := m.*1.

End Ops.
End JsMap.

(** ** Code that may throw: a state-and-exception monad *)

Inductive Exn :=
| SyntaxError
| TypeError
| InvalidStateError
| SendError
| Rejected.

Inductive Res (A : Type) :=
| Ok (a : A)
| Throw (e : Exn).
Arguments Ok {A} a.
Arguments Throw {A} e.

(** A computation over a state [S]: its outcome and the state it leaves.
    An exception does not undo the writes made before it. *)
Definition M (S A : Type) : Type := S → Res A * S.

Section Monad.
Context {S : Type}.

Definition ret {A} (a : A) : M S A := λ s, (Ok a, s).

Definition throw {A} (e : Exn) : M S A := λ s, (Throw e, s).

Definition bind {A B} (m : M S A) (k : A → M S B) : M S B :=
  λ s, match m s with
       | (Ok a, s') => k a s'
       | (Throw e, s') => (Throw e, s')
       end.

(** [try { m } catch { handler }] *)
Definition try_catch {A} (m : M S A) (handler : M S A) : M S A :=
  λ s, match m s with
       | (Ok a, s') => (Ok a, s')
       | (Throw _, s') => handler s'
       end.

(** [await p] for a promise settled with [r]; also the call of a callback
    whose outcome is [r]. *)
Definition await {A} (r : Res A) : M S A := λ s, (r, s).

Definition get : M S S := λ s, (Ok s, s).

Definition modify (f : S → S) : M S unit := λ s, (Ok (), f s).

End Monad.

Notation "x <- m ;; k" := (bind m (λ x, k))
  (at level 100, m at next level, right associativity, only parsing).
Notation "m ;;; k" := (bind m (λ _, k))
  (at level 100, right associativity, only parsing).

(** [for (const x of l) body(x)] *)
Fixpoint for_each {S A} (l : list A) (body : A → M S unit) : M S unit :=
  match l with
  | [] => ret ()
  | x :: l' => body x ;;; for_each l' body
  end.

(** ** Pattern matcher ([parsePattern], [extractParams]) *)

Module Pattern.

(** [\w] of a regular expression without the [u] flag. *)
Definition is_word (c : ascii) : bool :=
  let n := nat_of_ascii c in
  (((48 <=? n) && (n <=? 57)) || ((65 <=? n) && (n <=? 90))
   || (n =? 95) || ((97 <=? n) && (n <=? 122)))%nat.

(** The longest prefix of [\w] characters: what a greedy [(\w+)] captures. *)
Fixpoint take_word (s : string) : string :=
  match s with
  | String c s' => if is_word c then String c (take_word s') else ""
  | "" => ""
  end.

Fixpoint drop_word (s : string) : string :=
  match s with
  | String c s' => if is_word c then drop_word s' else s
  | "" => ""
  end.

Definition starts_with_word (s : string) : bool :=
  match s with
  | String c _ => is_word c
  | "" => false
  end.

(** [pattern.replace(/\/\*(\w+)/, (_, name) => { paramNames.push(name);
    return '/(.+)' })]: the regular expression is not global, so only the
    leftmost occurrence is replaced. The result is the new string and the
    names pushed. *)
Fixpoint replace_wildcard (s : string) : string * list string :=
  match s with
  | "" => ("", [])
  | String c s' =>
      match s' with
      | String c2 rest =>
          if (Ascii.eqb c "/" && Ascii.eqb c2 "*" && starts_with_word rest)%bool
          then ("/(.+)" +:+ drop_word rest, [take_word rest])
          else let '(out, names) := replace_wildcard s' in (String c out, names)
      | "" => (String c "", [])
      end
  end.

(** [.replace(/:(\w+)/g, (_, name) => { paramNames.push(name);
    return '([^/]+)' })]: every occurrence, left to right. [skip] is true
    while the scan is still inside the name of the occurrence just
    replaced. *)
Fixpoint replace_params (skip : bool) (s : string) : string * list string :=
  match s with
  | "" => ("", [])
  | String c s' =>
      if (skip && is_word c)%bool then replace_params true s'
      else if (Ascii.eqb c ":" && starts_with_word s')%bool then
        let '(out, names) := replace_params true s' in
        ("([^/]+)" +:+ out, take_word s' :: names)
      else
        let '(out, names) := replace_params false s' in
        (String c out, names)
  end.

(** The fragment of regular expressions that [parsePattern] produces from
    a pattern whose literal characters are not special: literal
    characters and the two capturing groups [(.+)] and [([^/]+)]. The
    expression is anchored at both ends. *)
Inductive CharClass := Dot | NotSlash.

Inductive RegexNode :=
| RLit (c : ascii)
| RGroup (cls : CharClass).

Definition RegExp := list RegexNode.

(** Characters with a meaning of their own in a regular expression. *)
Fixpoint occurs_in (c : ascii) (s : string) : bool :=
  match s with
  | "" => false
  | String c' s' => Ascii.eqb c c' || occurs_in c s'
  end.

Definition is_meta (c : ascii) : bool := occurs_in c "\^$.|?*+()[]{}".

Fixpoint starts_with (p s : string) : bool :=
  match p, s with
  | "", _ => true
  | String a p', String b s' => Ascii.eqb a b && starts_with p' s'
  | _, _ => false
  end.

(** [new RegExp(`^${regexStr}$`)] on that fragment; [None] when the source
    uses any other regular-expression syntax, which this model does not
    cover. [skip] counts the characters of a group still to pass over. *)
Fixpoint compile (skip : nat) (src : string) : option RegExp :=
  match src with
  | "" => Some []
  | String c src' =>
      match skip with
      | S k => compile k src'
      | O =>
          if starts_with "(.+)" src then
            cons (RGroup Dot) <$> compile 3 src'
          else if starts_with "([^/]+)" src then
            cons (RGroup NotSlash) <$> compile 6 src'
          else if is_meta c then None
          else cons (RLit c) <$> compile 0 src'
      end
  end.

(** Membership in a character class: [.] excludes line terminators. *)
Definition in_class (cls : CharClass) (c : ascii) : bool :=
  match cls with
  | Dot => negb (Ascii.eqb c "010" || Ascii.eqb c "013")
  | NotSlash => negb (Ascii.eqb c "/")
  end.

(** The ways to split [s] into a non-empty prefix inside the class and a
    rest, shortest prefix first. *)
Fixpoint splits (cls : CharClass) (s : string) : list (string * string) :=
  match s with
  | "" => []
  | String c s' =>
      if in_class cls c
      then (String c "", s') :: map (λ pq, (String c pq.1, pq.2)) (splits cls s')
      else []
  end.

Fixpoint first_some {A B} (f : A → option B) (l : list A) : option B :=
  match l with
  | [] => None
  | x :: l' => match f x with Some y => Some y | None => first_some f l' end
  end.

(** Backtracking match of the anchored expression: a greedy [+] tries its
    longest candidate first. The result lists the captured groups. *)
Fixpoint match_nodes (r : RegExp) (s : string) : option (list string) :=
  match r with
  | [] => if decide (s = "") then Some [] else None
  | RLit c :: r' =>
      match s with
      | String c' s' => if Ascii.eqb c c' then match_nodes r' s' else None
      | "" => None
      end
  | RGroup cls :: r' =>
      first_some (λ pq, cons pq.1 <$> match_nodes r' pq.2) (rev (splits cls s))
  end.

(** [regex.exec(name)]: the match array, whole match at index 0. *)
Definition exec (r : RegExp) (s : string) : option (list string) :=
  cons s <$> match_nodes r s.

Record Parsed := { regex : RegExp; paramNames : list string }.

(** The source text of the regular expression, before anchoring. *)
Definition regexStr (pattern : string) : string :=
  (replace_params false (replace_wildcard pattern).1).1.

Definition pushedNames (pattern : string) : list string :=
  (replace_wildcard pattern).2
  ++ (replace_params false (replace_wildcard pattern).1).2.

(** [parsePattern] on the patterns whose source lies in the fragment
    that [compile] interprets; [None] for every other pattern, which
    [parse] below hands to the engine. *)
Definition parsePattern (pattern : string) : option Parsed :=
  r ← compile 0 (regexStr pattern);
  Some {| regex := r; paramNames := pushedNames pattern |}.

(** The [exec] of a [RegExp] object of the engine: the match array, the
    whole match first and then one entry per capturing group, [None] for
    a group that took no part in the match ([undefined]). The expressions
    of [parsePattern] carry no flag, so [exec] keeps no state. *)
Definition NativeExec := string → option (list (option string)).

(** A [RegExp] object: one of the fragment, which the model interprets,
    or one that the engine built from another source. *)
Inductive RegExpObject :=
| Interpreted (r : RegExp)
| Native (exec : NativeExec).

Definition execObject (r : RegExpObject) (s : string)
    : option (list (option string)) :=
  match r with
  | Interpreted r => (λ m : list string, Some <$> m) <$> exec r s
  | Native f => f s
  end.

(** [new RegExp(`^${src}$`)]. For a source outside the fragment,
    [native] is what the engine makes of it: [None] when the constructor
    throws a [SyntaxError], else the [exec] of the expression it
    builds. *)
Definition newRegExp (native : option NativeExec) (src : string)
    : Res RegExpObject :=
  match compile 0 src with
  | Some r => Ok (Interpreted r)
  | None =>
      match native with
      | Some f => Ok (Native f)
      | None => Throw SyntaxError
      end
  end.

(** [parsePattern] on every pattern: the two replacements, which push
    the names, and then the constructor. *)
Definition parse (native : option NativeExec) (pattern : string)
    : Res (RegExpObject * list string) :=
  match newRegExp native (regexStr pattern) with
  | Ok r => Ok (r, pushedNames pattern)
  | Throw e => Throw e
  end.

(** A parameter value: a string, or JavaScript's [undefined] ([None]). *)
Abbreviation Params := (gmap string (option string)).

(** [for (let i = 0; i < names.length; i++) params[names[i]] = match[i + 1]]
    on [params = {}]. The assignment to the name [__proto__] reaches the
    setter that a plain object inherits from [Object.prototype], which
    ignores a string and [undefined]: that name is never bound. *)
Definition extractParamsOf (names : list string) (m : list (option string))
    : Params :=
  foldl (λ (params : Params) i,
           match names !! i with
           | Some n =>
               if decide (n = "__proto__") then params
               else <[n := mjoin (m !! (i + 1)%nat)]> params
           | None => params
           end)
        ∅ (seq 0 (List.length names)).

(** [extractParams] on a match array of the fragment, all of whose
    groups take part in the match. *)
Definition extractParams (names : list string) (m : list string) : Params :=
  extractParamsOf names (Some <$> m).

(** *** What a pattern is meant to accept *)

(** A pattern and a name put together as [channel] and [matchChannel] do:
    the parameters of the name, or [None] when the pattern does not
    compile or the name is not accepted. *)
Definition matchPattern (pattern name : string) : option Params :=
  p ← parsePattern pattern;
  m ← exec (regex p) name;
  Some (extractParams (paramNames p) m).

Fixpoint all_in (cls : CharClass) (s : string) : bool :=
  match s with
  | "" => true
  | String c s' => in_class cls c && all_in cls s'
  end.

(** What a group can capture: a non-empty string inside its class. *)
Definition capture_ok (cls : CharClass) (g : string) : bool :=
  match g with
  | "" => false
  | _ => all_in cls g
  end.

(** The name an expression spells when its groups capture [groups], left
    to right; [None] when the captures do not fit the groups. *)
Fixpoint rebuild (r : RegExp) (groups : list string) : option string :=
  match r with
  | [] => match groups with [] => Some "" | _ :: _ => None end
  | RLit c :: r' => String c <$> rebuild r' groups
  | RGroup cls :: r' =>
      match groups with
      | g :: gs =>
          if capture_ok cls g then (λ t, g +:+ t) <$> rebuild r' gs else None
      | [] => None
      end
  end.

(** A pattern without a wildcard, as the pieces it is written from:
    literal text and [:name] parameters. *)
Inductive Segment :=
| Static (text : string)
| Named (name : string).

Fixpoint spell (segs : list Segment) : string :=
  match segs with
  | [] => ""
  | Static t :: segs' => t +:+ spell segs'
  | Named n :: segs' => ":" +:+ n +:+ spell segs'
  end.

Fixpoint lits (t : string) : RegExp :=
  match t with
  | "" => []
  | String c t' => RLit c :: lits t'
  end.

(** The expression and the parameter names such a pattern stands for. *)
Fixpoint regexOf (segs : list Segment) : RegExp :=
  match segs with
  | [] => []
  | Static t :: segs' => lits t ++ regexOf segs'
  | Named _ :: segs' => RGroup NotSlash :: regexOf segs'
  end.

Fixpoint namesOf (segs : list Segment) : list string :=
  match segs with
  | [] => []
  | Static _ :: segs' => namesOf segs'
  | Named n :: segs' => n :: namesOf segs'
  end.

(** Literal text that reads as itself in a pattern and in a regular
    expression: no special character and no colon. *)
Fixpoint plain (t : string) : bool :=
  match t with
  | "" => true
  | String c t' => negb (is_meta c) && negb (Ascii.eqb c ":") && plain t'
  end.

(** A parameter name: one or more word characters. *)
Fixpoint all_word (n : string) : bool :=
  match n with
  | "" => true
  | String c n' => is_word c && all_word n'
  end.

Definition is_name (n : string) : bool := starts_with_word n && all_word n.

(** The pieces are read back as written: literal text is plain, and a
    parameter name is followed by the end of the pattern or by a
    character that cannot continue the name. *)
Fixpoint well_formed (segs : list Segment) : bool :=
  match segs with
  | [] => true
  | Static t :: segs' => plain t && well_formed segs'
  | Named n :: segs' =>
      is_name n && negb (starts_with_word (spell segs')) && well_formed segs'
  end.

(** What [regexStr] is meant to be for such a pattern. *)
Fixpoint sourceOf (segs : list Segment) : string :=
  match segs with
  | [] => ""
  | Static t :: segs' => t +:+ sourceOf segs'
  | Named _ :: segs' => "([^/]+)" +:+ sourceOf segs'
  end.

(** Every group of the expression is a whole path segment: a [([^/]+)] is
    followed by ["/"] or by the end, a [(.+)] by the end. *)
Fixpoint segmented (r : RegExp) : bool :=
  match r with
  | [] => true
  | RLit _ :: r' => segmented r'
  | RGroup Dot :: r' => match r' with [] => true | _ :: _ => false end
  | RGroup NotSlash :: r' =>
      match r' with
      | [] => true
      | RLit c :: _ => Ascii.eqb c "/" && segmented r'
      | RGroup _ :: _ => false
      end
  end.

End Pattern.

(** ** Wire protocol: the JSON envelopes *)

Module Wire.

(** The opaque payload [d] of a message, as its JSON text. *)
Definition Data := string.

(** Server to client: [{t:'welcome',id}], [{t:'ok',c}], [{t:'err',c,r}],
    [{t:'msg',c,e,d}], [{t:'ping'}]. *)
Inductive ServerFrame :=
| Welcome (id : string)
| SubOk (c : string)
| SubErr (c r : string)
| Msg (c e : string) (d : Data)
| Ping.

(** Client to server: [{t:'sub',c}], [{t:'unsub',c}], [{t:'msg',c,e,d}],
    [{t:'pong'}]. A field that is absent reads as the empty string. *)
Inductive ClientFrame :=
| Sub (c : string)
| Unsub (c : string)
| ClientMsg (c e : string) (d : Data)
| Pong.

Global Instance ServerFrame_eq_dec : EqDecision ServerFrame.
Proof. solve_decision. Defined.

Global Instance ClientFrame_eq_dec : EqDecision ClientFrame.
Proof. solve_decision. Defined.

End Wire.

(** [!s] for a string [s]: only the empty string is falsy. *)
Definition falsy (s : string) : bool := bool_decide (s = "").

(** ** The hub ([BroadcastManager]) *)

Module Hub.
Import Wire.
Export Pattern(Params).

(** A [ServerWebSocket]: its identity as an object and the request it
    was upgraded from ([ws.data?.request]). *)
Record ServerWebSocket := {
  ws_id : nat;
  ws_request : option string;
}.

(** The request context. [ctx_clientId] is the [clientId] property that
    [handleMessage] assigns; it is absent on a new context. *)
Record Context := {
  request : string;
  ctx_clientId : option string;
}.

Definition AuthorizeCallback := Context → Params → Res bool.
Definition MessageHandler := Context → Params → Data → Res unit.
Definition Middleware := Context → Res Context.

Record ChannelConfig := {
  cfg_authorize : option AuthorizeCallback;
  cfg_messages : option (gmap string MessageHandler);
}.

(** The second argument of [channel]: absent, a callback, or a config. *)
Inductive ChannelArg :=
| NoConfig
| ConfigFn (f : AuthorizeCallback)
| ConfigObj (c : ChannelConfig).

Record ChannelDefinition := {
  pattern : string;
  regex : Pattern.RegExpObject;
  paramNames : list string;
  authorize : option AuthorizeCallback;
  messages : option (gmap string MessageHandler);
}.

Record ClientConnection := {
  ws : ServerWebSocket;
  clientId : string;
  channels : list string;
  ctxReady : Res Context;
}.

(** The static fields of [BroadcastManager]. *)
Record BroadcastManager := {
  _channels : list ChannelDefinition;
  _clients : gmap string ClientConnection;
  _subscribers : gmap string (list string);
  _wsToClient : gmap nat string;
  _middleware : list Middleware;
  _pingTimer : option Z;
}.

(** What the hub does to the outside, in order: a frame written to a
    socket, an authorization callback invoked, the call
    [messages[event](ctx, params, data)] of a message handler made. *)
Inductive Event :=
| EvSend (ws : nat) (f : ServerFrame)
| EvAuthorize (pattern : string) (ctx : Context) (params : Params)
| EvHandler (pattern event : string) (ctx : Context) (params : Params) (data : Data).

(** The hub, the trace of its effects, and the sockets whose [send]
    throws. *)
Record World := {
  hub : BroadcastManager;
  trace : list Event;
  broken : gset nat;
}.

Definition with_hub (h : BroadcastManager) (w : World) : World :=
  {| hub := h; trace := trace w; broken := broken w |}.

Definition with_trace (t : list Event) (w : World) : World :=
  {| hub := hub w; trace := t; broken := broken w |}.

Definition with_broken (b : gset nat) (w : World) : World :=
  {| hub := hub w; trace := trace w; broken := b |}.

Definition with_channels (l : list ChannelDefinition) (h : BroadcastManager) :=
  {| _channels := l; _clients := _clients h; _subscribers := _subscribers h;
     _wsToClient := _wsToClient h; _middleware := _middleware h;
     _pingTimer := _pingTimer h |}.

Definition with_clients (m : gmap string ClientConnection) (h : BroadcastManager) :=
  {| _channels := _channels h; _clients := m; _subscribers := _subscribers h;
     _wsToClient := _wsToClient h; _middleware := _middleware h;
     _pingTimer := _pingTimer h |}.

Definition with_subscribers (m : gmap string (list string)) (h : BroadcastManager) :=
  {| _channels := _channels h; _clients := _clients h; _subscribers := m;
     _wsToClient := _wsToClient h; _middleware := _middleware h;
     _pingTimer := _pingTimer h |}.

Definition with_wsToClient (m : gmap nat string) (h : BroadcastManager) :=
  {| _channels := _channels h; _clients := _clients h;
     _subscribers := _subscribers h; _wsToClient := m;
     _middleware := _middleware h; _pingTimer := _pingTimer h |}.

Definition with_middleware (m : list Middleware) (h : BroadcastManager) :=
  {| _channels := _channels h; _clients := _clients h;
     _subscribers := _subscribers h; _wsToClient := _wsToClient h;
     _middleware := m; _pingTimer := _pingTimer h |}.

Definition with_pingTimer (t : option Z) (h : BroadcastManager) :=
  {| _channels := _channels h; _clients := _clients h;
     _subscribers := _subscribers h; _wsToClient := _wsToClient h;
     _middleware := _middleware h; _pingTimer := t |}.

Definition with_client_channels (l : list string) (c : ClientConnection) :=
  {| ws := ws c; clientId := clientId c; channels := l; ctxReady := ctxReady c |}.

Definition with_ctxReady (r : Res Context) (c : ClientConnection) :=
  {| ws := ws c; clientId := clientId c; channels := channels c; ctxReady := r |}.

(** *** Hub code runs over the world *)

Definition get_hub : M World BroadcastManager :=
  w <- get ;; ret (hub w).

Definition modify_hub (f : BroadcastManager → BroadcastManager) : M World unit :=
  modify (λ w, with_hub (f (hub w)) w).

Definition log (e : Event) : M World unit :=
  modify (λ w, with_trace (trace w ++ [e]) w).

(** [ws.send(JSON.stringify(f))]: throws on a broken socket, and
    otherwise the frame is written. *)
Definition ws_send (s : ServerWebSocket) (f : ServerFrame) : M World unit :=
  λ w, if decide (ws_id s ∈ broken w) then (Throw SendError, w)
       else log (EvSend (ws_id s) f) w.

(** A mutation of a connection object. The hub reaches the object
    through [_clients], under its [clientId]; once that entry is deleted
    the object is orphaned and its mutation is no longer seen. *)
Definition update_client (c : ClientConnection)
    (f : ClientConnection → ClientConnection) : M World unit :=
  modify_hub (λ h, with_clients (alter f (clientId c) (_clients h)) h).

(** *** Channel registry *)

(** [BroadcastManager.channel(pattern, config)]. When [new RegExp]
    throws a [SyntaxError] nothing is registered. [native] is what the
    engine makes of the pattern's source when that source lies outside
    the fragment the model interprets (see [Pattern.newRegExp]); it is
    not looked at otherwise. *)
Definition channel (pat : string) (config : ChannelArg)
    (native : option Pattern.NativeExec) : M World unit :=
  p <- await (Pattern.parse native pat) ;;
  let '(auth, msgs) :=
    match config with
    | ConfigFn f => (Some f, None)
    | ConfigObj c => (cfg_authorize c, cfg_messages c)
    | NoConfig => (None, None)
    end in
  modify_hub (λ h, with_channels
    (_channels h ++ [{| pattern := pat; regex := p.1; paramNames := p.2;
                        authorize := auth; messages := msgs |}]) h).

(** The loop of [matchChannel] over [_channels]. *)
Fixpoint firstMatch (defs : list ChannelDefinition) (channelName : string)
    : option (ChannelDefinition * Params) :=
  match defs with
  | [] => None
  | def :: rest =>
      match Pattern.execObject (regex def) channelName with
      | Some m => Some (def, Pattern.extractParamsOf (paramNames def) m)
      | None => firstMatch rest channelName
      end
  end.

Definition matchChannel (channelName : string)
    : M World (option (ChannelDefinition * Params)) :=
  h <- get_hub ;;
  ret (firstMatch (_channels h) channelName).

(** *** Subscription index *)

(** [subs.delete(clientId); if (subs.size === 0)
    _subscribers.delete(channel)], when [_subscribers] has the channel. *)
Definition dropSubscriber (clientId channel : string) : M World unit :=
  h <- get_hub ;;
  match _subscribers h !! channel with
  | Some subs =>
      let subs' := JsSet.delete clientId subs in
      if Nat.eqb (JsSet.size subs') 0
      then modify_hub (λ h, with_subscribers (delete channel (_subscribers h)) h)
      else modify_hub (λ h, with_subscribers (<[channel := subs']> (_subscribers h)) h)
  | None => ret ()
  end.

Definition handleSubscribe (client : ClientConnection) (channelName : string)
    : M World unit :=
  if falsy channelName then ret () else
  (* Already subscribed *)
  if JsSet.has channelName (channels client)
  then ws_send (ws client) (SubOk channelName) else
  m <- matchChannel channelName ;;
  match m with
  | None => ws_send (ws client) (SubErr channelName "unknown channel")
  | Some (definition, params) =>
      proceed <-
        match authorize definition with
        | Some auth =>
            try_catch
              (ctx <- await (ctxReady client) ;;
               log (EvAuthorize (pattern definition) ctx params) ;;;
               allowed <- await (auth ctx params) ;;
               if negb allowed
               then ws_send (ws client) (SubErr channelName "unauthorized") ;;;
                    ret false
               else ret true)
              (ws_send (ws client) (SubErr channelName "authorization failed") ;;;
               ret false)
        | None => ret true
        end ;;
      if negb proceed then ret () else
      (* Add to subscribers *)
      update_client client
        (λ c, with_client_channels (JsSet.add channelName (channels c)) c) ;;;
      modify_hub (λ h, with_subscribers
        (<[channelName :=
             JsSet.add (clientId client)
               (default [] (_subscribers h !! channelName))]>
           (_subscribers h)) h) ;;;
      ws_send (ws client) (SubOk channelName)
  end.

Definition handleUnsubscribe (client : ClientConnection) (channelName : string)
    : M World unit :=
  if falsy channelName then ret () else
  update_client client
    (λ c, with_client_channels (JsSet.delete channelName (channels c)) c) ;;;
  dropSubscriber (clientId client) channelName.

(** The functions that a plain object inherits from [Object.prototype],
    which [messages[event]] finds when the object has no handler of that
    name, and what their call with [(ctx, params, data)] does:
    [__defineGetter__] and [__defineSetter__] throw a [TypeError] (their
    second argument is no function), [__proto__] is an object and no
    function, so its call throws too; the others return normally. *)
Definition inherited (event : string) : option MessageHandler :=
  if decide (event ∈ ["__defineGetter__"; "__defineSetter__"; "__proto__"])
  then Some (λ _ _ _, Throw TypeError)
  else if decide (event ∈ ["constructor"; "hasOwnProperty"; "isPrototypeOf";
                           "propertyIsEnumerable"; "toLocaleString"; "toString";
                           "valueOf"; "__lookupGetter__"; "__lookupSetter__"])
  then Some (λ _ _ _, Ok ())
  else None.

(** [messages?.[event]], for handlers given as an object literal (with
    no handler named [then], so that the object is not taken for a
    promise when [valueOf] returns it): its own handler of that name, or
    else what it inherits. *)
Definition property (handlers : option (gmap string MessageHandler))
    (event : string) : option MessageHandler :=
  hs ← handlers;
  match hs !! event with
  | Some handler => Some handler
  | None => inherited event
  end.

Definition handleMessage (client : ClientConnection)
    (channelName event : string) (data : Data) : M World unit :=
  if (falsy channelName || falsy event)%bool then ret () else
  if negb (JsSet.has channelName (channels client)) then ret () else
  m <- matchChannel channelName ;;
  match m with
  | None => ret ()
  | Some (definition, params) =>
      match property (messages definition) event with
      | None => ret ()
      | Some handler =>
          ctx <- await (ctxReady client) ;;
          let ctx' := {| request := request ctx;
                         ctx_clientId := Some (clientId client) |} in
          update_client client (with_ctxReady (Ok ctx')) ;;;
          log (EvHandler (pattern definition) event ctx' params data) ;;;
          await (handler ctx' params data)
      end
  end.

Definition broadcastToChannel (channel event : string) (data : Data)
    (excludeClientId : option string) : M World unit :=
  h <- get_hub ;;
  match _subscribers h !! channel with
  | None => ret ()
  | Some subs =>
      if Nat.eqb (JsSet.size subs) 0 then ret () else
      let msg := Msg channel event data in
      for_each subs (λ clientId,
        if decide (Some clientId = excludeClientId) then ret () else
        h <- get_hub ;;
        match _clients h !! clientId with
        | Some client => try_catch (ws_send (ws client) msg) (ret ())
        | None => ret ()
        end)
  end.

Definition removeClient (clientId : string) : M World unit :=
  h <- get_hub ;;
  match _clients h !! clientId with
  | None => ret ()
  | Some client =>
      for_each (channels client) (dropSubscriber clientId) ;;;
      modify_hub (λ h, with_clients (delete clientId (_clients h)) h)
  end.

(** *** The builder [to(channel).except(clientId).send(event, data)] *)

Record PendingBroadcast := {
  pb_channel : string;
  excluded : option string;
}.

Definition to (channel : string) : PendingBroadcast :=
  {| pb_channel := channel; excluded := None |}.

Definition except (clientId : string) (p : PendingBroadcast) : PendingBroadcast :=
  {| pb_channel := pb_channel p; excluded := Some clientId |}.

Definition send (p : PendingBroadcast) (event : string) (data : Data) : M World unit :=
  broadcastToChannel (pb_channel p) event data (excluded p).

(** *** Introspection and teardown *)

Definition clientCount (h : BroadcastManager) : nat := size (_clients h).

Definition subscriberCount (h : BroadcastManager) (channel : string) : nat :=
  match _subscribers h !! channel with
  | Some subs => JsSet.size subs
  | None => 0
  end.

Definition reset : M World unit :=
  modify_hub (λ h,
    {| _channels := []; _clients := ∅; _subscribers := ∅;
       _wsToClient := _wsToClient h; _middleware := []; _pingTimer := None |}).

(** *** The socket handlers installed by [boot] *)

(** [compose(middleware, noop)(ctx)] of the HTTP package: the middleware
    run in order on the context, and the first failure rejects. *)
Definition compose (mw : list Middleware) (ctx : Context) : Res Context :=
  foldl (λ r m, match r with Ok c => m c | Throw e => Throw e end) (Ok ctx) mw.

Definition buildContext (s : ServerWebSocket) (h : BroadcastManager) : Res Context :=
  match ws_request s with
  | None => Ok {| request := "http://localhost"; ctx_clientId := None |}
  | Some req =>
      let ctx := {| request := req; ctx_clientId := None |} in
      if Nat.ltb 0 (List.length (_middleware h))
      then compose (_middleware h) ctx
      else Ok ctx
  end.

(** [boot]: keeps the middleware when given, and starts the ping timer
    when the interval is positive (default 30000). *)
Definition boot (middleware : option (list Middleware)) (pingInterval : option Z)
    : M World unit :=
  let interval := default 30000%Z pingInterval in
  match middleware with
  | Some mw => modify_hub (with_middleware mw)
  | None => ret ()
  end ;;;
  if Z.ltb 0 interval
  then modify_hub (with_pingTimer (Some interval))
  else ret ().

(** [open(ws)]; [uuid] is the value [crypto.randomUUID()] returns. *)
Definition open (s : ServerWebSocket) (uuid : string) : M World unit :=
  modify_hub (λ h, with_wsToClient (<[ws_id s := uuid]> (_wsToClient h)) h) ;;;
  h <- get_hub ;;
  let ctxReady := buildContext s h in
  modify_hub (λ h, with_clients
    (<[uuid := {| ws := s; clientId := uuid; channels := [];
                  ctxReady := ctxReady |}]> (_clients h)) h) ;;;
  ws_send s (Welcome uuid).

(** An inbound text frame: not JSON, JSON with an unknown tag, or one of
    the client envelopes. *)
Inductive RawMessage :=
| Malformed
| Unknown
| Frame (f : ClientFrame).

(** [message(ws, raw)] *)
Definition message (s : ServerWebSocket) (raw : RawMessage) : M World unit :=
  try_catch
    (msg <- await (match raw with
                   | Malformed => Throw SyntaxError
                   | Unknown => Ok None
                   | Frame f => Ok (Some f)
                   end) ;;
     h <- get_hub ;;
     match _wsToClient h !! ws_id s with
     | None => ret ()
     | Some clientId =>
         if falsy clientId then ret () else
         match _clients h !! clientId with
         | None => ret ()
         | Some client =>
             match msg with
             | Some (Sub c) => handleSubscribe client c
             | Some (Unsub c) => handleUnsubscribe client c
             | Some (ClientMsg c e d) => handleMessage client c e d
             | Some Pong => ret ()
             | None => ret ()
             end
         end
     end)
    (* Malformed message: silently ignore *)
    (ret ()).

(** [close(ws)] *)
Definition close (s : ServerWebSocket) : M World unit :=
  h <- get_hub ;;
  match _wsToClient h !! ws_id s with
  | None => ret ()
  | Some clientId => if falsy clientId then ret () else removeClient clientId
  end.

(** *** Runs of the hub *)

(** What happens to a hub: the calls of the application and the events of
    the transport. *)
Inductive Op :=
| OpBoot (middleware : option (list Middleware)) (pingInterval : option Z)
| OpChannel (pattern : string) (config : ChannelArg)
    (native : option Pattern.NativeExec)
| OpOpen (s : ServerWebSocket) (uuid : string)
| OpMessage (s : ServerWebSocket) (raw : RawMessage)
| OpClose (s : ServerWebSocket)
| OpSend (channel : string) (excluded : option string) (event : string) (data : Data)
| OpReset
| OpBreak (sockets : gset nat).

Definition perform (op : Op) : M World unit :=
  match op with
  | OpBoot mw p => boot mw p
  | OpChannel pat cfg native => channel pat cfg native
  | OpOpen s uuid => open s uuid
  | OpMessage s raw => message s raw
  | OpClose s => close s
  | OpSend c None e d => send (to c) e d
  | OpSend c (Some x) e d => send (except x (to c)) e d
  | OpReset => reset
  | OpBreak b => λ w, (Ok (), with_broken b w)
  end.

(** An exception of a call does not undo what the call did before. *)
Definition step (op : Op) (w : World) : World := (perform op w).2.

(** The environment's part: a socket handed to [open] is a new object,
    and [crypto.randomUUID()] returns an identifier no live connection
    has. *)
Definition plausible (op : Op) (w : World) : bool :=
  match op with
  | OpOpen s uuid =>
      bool_decide (_clients (hub w) !! uuid = None)
      && bool_decide (_wsToClient (hub w) !! ws_id s = None)
  | _ => true
  end.

Fixpoint run (ops : list Op) (w : World) : World :=
  match ops with
  | [] => w
  | op :: ops' => run ops' (step op w)
  end.

Fixpoint plausible_run (ops : list Op) (w : World) : bool :=
  match ops with
  | [] => true
  | op :: ops' => plausible op w && plausible_run ops' (step op w)
  end.

Definition init : World :=
  {| hub := {| _channels := []; _clients := ∅; _subscribers := ∅;
               _wsToClient := ∅; _middleware := []; _pingTimer := None |};
     trace := []; broken := ∅ |}.

(** The channel set of connection [cid]; empty when there is none. *)
Definition channelsOf (h : BroadcastManager) (cid : string) : list string :=
  match _clients h !! cid with
  | Some c => channels c
  | None => []
  end.

(** The index entry of a channel; empty when there is none. *)
Definition subscribersOf (h : BroadcastManager) (channel : string) : list string :=
  default [] (_subscribers h !! channel).

(** *** Handlers that are suspended at an [await]

    [handleSubscribe] awaits the request context and the authorization
    callback. Until the awaited promise settles, the event loop runs
    other handlers; the suspended call then goes on with the connection
    object it was given. *)

(** A call of [handleSubscribe] parked at its first [await]. *)
Record Suspended := {
  s_client : ClientConnection;
  s_channelName : string;
  s_definition : ChannelDefinition;
  s_params : Params;
}.

(** [handleSubscribe] up to its first [await]. Without an [authorize]
    callback there is no [await], and the call completes at once. *)
Definition handleSubscribe_start (client : ClientConnection) (channelName : string)
    : M World (option Suspended) :=
  if falsy channelName then ret None else
  if JsSet.has channelName (channels client)
  then ws_send (ws client) (SubOk channelName) ;;; ret None else
  m <- matchChannel channelName ;;
  match m with
  | None =>
      ws_send (ws client) (SubErr channelName "unknown channel") ;;; ret None
  | Some (definition, params) =>
      match authorize definition with
      | Some _ =>
          ret (Some {| s_client := client; s_channelName := channelName;
                       s_definition := definition; s_params := params |})
      | None =>
          update_client client
            (λ c, with_client_channels (JsSet.add channelName (channels c)) c) ;;;
          modify_hub (λ h, with_subscribers
            (<[channelName :=
                 JsSet.add (clientId client)
                   (default [] (_subscribers h !! channelName))]>
               (_subscribers h)) h) ;;;
          ws_send (ws client) (SubOk channelName) ;;;
          ret None
      end
  end.

(** The rest of a parked call, once the awaited promises have settled. *)
Definition handleSubscribe_resume (p : Suspended) : M World unit :=
  let client := s_client p in
  let channelName := s_channelName p in
  match authorize (s_definition p) with
  | None => ret ()
  | Some auth =>
      proceed <-
        try_catch
          (ctx <- await (ctxReady client) ;;
           log (EvAuthorize (pattern (s_definition p)) ctx (s_params p)) ;;;
           allowed <- await (auth ctx (s_params p)) ;;
           if negb allowed
           then ws_send (ws client) (SubErr channelName "unauthorized") ;;;
                ret false
           else ret true)
          (ws_send (ws client) (SubErr channelName "authorization failed") ;;;
           ret false) ;;
      if negb proceed then ret () else
      update_client client
        (λ c, with_client_channels (JsSet.add channelName (channels c)) c) ;;;
      modify_hub (λ h, with_subscribers
        (<[channelName :=
             JsSet.add (clientId client)
               (default [] (_subscribers h !! channelName))]>
           (_subscribers h)) h) ;;;
      ws_send (ws client) (SubOk channelName)
  end.

(** [message(ws, raw)] for a [sub] frame, up to the first [await]. *)
Definition message_start (s : ServerWebSocket) (channelName : string)
    : M World (option Suspended) :=
  try_catch
    (h <- get_hub ;;
     match _wsToClient h !! ws_id s with
     | None => ret None
     | Some clientId =>
         if falsy clientId then ret None else
         match _clients h !! clientId with
         | None => ret None
         | Some client => handleSubscribe_start client channelName
         end
     end)
    (ret None).

(** The rest of that call of [message]; its [catch] still applies. *)
Definition message_resume (p : Suspended) : M World unit :=
  try_catch (handleSubscribe_resume p) (ret ()).

(** Events of a run in which a [sub] may stay parked while other events
    are handled: an event handled to completion, a [sub] frame handled up
    to its [await], and the settling of the oldest parked call. *)
Inductive AsyncOp :=
| Whole (op : Op)
| SubArrives (s : ServerWebSocket) (channelName : string)
| Settles.

Definition async_step (op : AsyncOp) (st : World * list Suspended)
    : World * list Suspended :=
  let '(w, parked) := st in
  match op with
  | Whole op => (step op w, parked)
  | SubArrives s c =>
      match message_start s c w with
      | (Ok (Some p), w') => (w', (parked ++ [p])%list)
      | (_, w') => (w', parked)
      end
  | Settles =>
      match parked with
      | p :: parked' => ((message_resume p w).2, parked')
      | [] => (w, [])
      end
  end.

Definition async_run (ops : list AsyncOp) (w : World) : World * list Suspended :=
  foldl (λ st op, async_step op st) (w, []) ops.

(** The definition [channel] appends for a pattern and its config; none
    when the constructor of the expression throws. *)
Definition definitionOf (pat : string) (config : ChannelArg)
    (native : option Pattern.NativeExec) : option ChannelDefinition :=
  match Pattern.parse native pat with
  | Throw _ => None
  | Ok p =>
  Some {| pattern := pat; regex := p.1; paramNames := p.2;
          authorize := match config with
                       | ConfigFn f => Some f
                       | ConfigObj c => cfg_authorize c
                       | NoConfig => None
                       end;
          messages := match config with
                      | ConfigObj c => cfg_messages c
                      | _ => None
                      end |}
  end.

(** *** What a broadcast writes *)

(** The connections the loop of [broadcastToChannel] writes to, in the
    order of the subscriber set: every subscriber that is not excluded
    and has a connection. *)
Definition recipients (h : BroadcastManager) (subs : list string)
    (excludeClientId : option string) : list ClientConnection :=
  omap (λ cid, if decide (Some cid = excludeClientId) then None
               else _clients h !! cid) subs.

(** The definition, parameters and handler [handleMessage] dispatches a
    client message to; [None] when its guards let the message drop. *)
Definition dispatched (client : ClientConnection) (channelName event : string)
    (h : BroadcastManager)
    : option (ChannelDefinition * Params * MessageHandler) :=
  if (falsy channelName || falsy event)%bool then None else
  if negb (JsSet.has channelName (channels client)) then None else
  match firstMatch (_channels h) channelName with
  | None => None
  | Some (definition, params) =>
      match property (messages definition) event with
      | None => None
      | Some handler => Some (definition, params, handler)
      end
  end.

(** *** Scenarios *)

Definition ws_a : ServerWebSocket := {| ws_id := 1; ws_request := Some "/_broadcast" |}.
Definition ws_b : ServerWebSocket := {| ws_id := 2; ws_request := None |}.
Definition ws_c : ServerWebSocket := {| ws_id := 3; ws_request := None |}.

Definition allow_all : AuthorizeCallback := λ _ _, Ok true.
Definition deny_all : AuthorizeCallback := λ _ _, Ok false.
Definition failing : AuthorizeCallback := λ _ _, Throw Rejected.

(** Handlers that complete, as the ones of the documentation do. *)
Definition chat_handlers : gmap string MessageHandler :=
  {[ "typing" := (λ _ _ _, Ok ()) ]}.

(** Three connections on one chat, every handler run to completion. *)
Definition chat_session : list Op :=
  [ OpBoot None None;
    OpChannel "chats/:id" (ConfigFn allow_all) None;
    OpChannel "chat/:id"
      (ConfigObj {| cfg_authorize := Some allow_all;
                    cfg_messages := Some chat_handlers |}) None;
    OpOpen ws_a "a"; OpOpen ws_b "b"; OpOpen ws_c "c";
    OpMessage ws_a (Frame (Sub "chat/1"));
    OpMessage ws_b (Frame (Sub "chat/1"));
    OpMessage ws_c (Frame (Sub "chat/1"));
    OpMessage ws_b (Frame (Sub "chats/7")) ].

(** A channel whose callback refuses everyone, one whose callback
    throws, and a connection. *)
Definition guarded_session : list Op :=
  [ OpChannel "chats/:id" (ConfigFn deny_all) None;
    OpChannel "vault/:id" (ConfigFn failing) None;
    OpOpen ws_a "a" ].

(** A connection that closes while its authorization is awaited. *)
Definition close_during_authorization : list AsyncOp :=
  [ Whole (OpChannel "chats/:id" (ConfigFn allow_all) None);
    Whole (OpOpen ws_a "a");
    SubArrives ws_a "chats/7";
    Whole (OpClose ws_a);
    Settles ].

(** *** The invariant of the hub *)

(** Connections are stored under their own identifier; the index and
    the channel sets mirror each other; the index has no empty entry;
    the sets have no repetition; every stored connection is the one its
    socket maps to. *)
Record hub_ok (h : BroadcastManager) : Prop := {
  ok_ids : ∀ k c, _clients h !! k = Some c → clientId c = k;
  ok_index : ∀ ch cid, cid ∈ subscribersOf h ch ↔ ch ∈ channelsOf h cid;
  ok_nonempty : ∀ ch s, _subscribers h !! ch = Some s → s ≠ [];
  ok_nodup_subs : ∀ ch s, _subscribers h !! ch = Some s → NoDup s;
  ok_nodup_chans : ∀ k c, _clients h !! k = Some c → NoDup (channels c);
  ok_sockets : ∀ k c, _clients h !! k = Some c →
                      _wsToClient h !! ws_id (ws c) = Some k;
}.

(** The index and the channel sets mirror each other, and the index has
    no empty entry. *)
Definition index_mirrors (h : BroadcastManager) : Prop :=
  (∀ cid ch, cid ∈ subscribersOf h ch ↔ ch ∈ channelsOf h cid)
  ∧ (∀ ch subs, _subscribers h !! ch = Some subs → subs ≠ []).

(** The index after [dropSubscriber clientId channel]. *)
Definition index_without (clientId channel : string)
    (m : gmap string (list string)) : gmap string (list string) :=
  match m !! channel with
  | Some subs =>
      let subs' := JsSet.delete clientId subs in
      if Nat.eqb (JsSet.size subs') 0 then delete channel m
      else <[channel := subs']> m
  | None => m
  end.

(** Entries are non-empty and free of repetition. *)
Definition index_tidy (m : gmap string (list string)) : Prop :=
  ∀ ch s, m !! ch = Some s → s ≠ [] ∧ NoDup s.

(** The hub after the additions of [handleSubscribe]. *)
Definition joined (client : ClientConnection) (channelName : string)
    (h : BroadcastManager) : BroadcastManager :=
  with_subscribers
    (<[channelName :=
         JsSet.add (clientId client) (default [] (_subscribers h !! channelName))]>
       (_subscribers h))
    (with_clients
       (alter (λ c, with_client_channels (JsSet.add channelName (channels c)) c)
              (clientId client) (_clients h)) h).

(** The hub after the removals of [handleUnsubscribe]. *)
Definition parted (client : ClientConnection) (channelName : string)
    (h : BroadcastManager) : BroadcastManager :=
  with_subscribers
    (index_without (clientId client) channelName (_subscribers h))
    (with_clients
       (alter (λ c, with_client_channels (JsSet.delete channelName (channels c)) c)
              (clientId client) (_clients h)) h).

(** The hub after [removeClient] of a stored connection. *)
Definition removed (client : ClientConnection) (cid : string)
    (h : BroadcastManager) : BroadcastManager :=
  with_clients (delete cid (_clients h))
    (with_subscribers
       (foldl (λ m ch, index_without cid ch m) (_subscribers h) (channels client))
       h).

(** The index after the additions of [handleSubscribe]. *)
Definition index_with (clientId channel : string)
    (m : gmap string (list string)) : gmap string (list string) :=
  <[channel := JsSet.add clientId (default [] (m !! channel))]> m.

End Hub.

(** ** The browser client ([Broadcast], [Subscription]) *)

Module Client.
Import Wire.

(** A JavaScript number that is an integer or [Infinity]. *)
Inductive JsNum :=
| Num (z : Z)
| Infinity.

(** [a >= b] *)
Definition ge (a b : JsNum) : bool :=
  match a, b with
  | Infinity, _ => true
  | Num _, Infinity => false
  | Num x, Num y => (y <=? x)%Z
  end.

(** [a++] *)
Definition incr (a : JsNum) : JsNum :=
  match a with
  | Num z => Num (z + 1)
  | Infinity => Infinity
  end.

(** [Math.min(1000 * Math.pow(2, a - 1), 30_000)] for [a] at least 1; the
    counter is never below 1 when the delay is computed. *)
Definition backoff (a : JsNum) : Z :=
  match a with
  | Num z => Z.min (1000 * 2 ^ (z - 1)) 30000
  | Infinity => 30000
  end.

Inductive ReadyState := CONNECTING | OPEN | CLOSING | CLOSED.

Record WebSocket := { readyState : ReadyState }.

(** A timer made by [setTimeout]; [clearTimeout] and firing end it. *)
Record Timer := { delay : Z; pending : bool }.

(** A listener function, by its identity. *)
Definition Callback := nat.

(** A [Subscription] object: [sendFn] is [msg => this.send(msg)] and
    [leaveFn] is [() => this.subscriptions.delete(channel)] of the
    [Broadcast] that made it. *)
Record Subscription := {
  channel : string;
  listeners : list (string * list Callback);
}.

(** The lifecycle events [emit] raises. *)
Inductive Lifecycle :=
| connected
| disconnected
| reconnecting (attempt : JsNum)
| subscribed (c : string)
| error (c r : string).

(** The fields of [Broadcast]; the [Subscription] objects it made, by
    handle ([objects]); and what it did to the outside: the frames an
    open socket took ([sent]), the events raised ([emitted]), the
    listener calls made ([called]). *)
Record Broadcast := {
  ws : option WebSocket;
  url : string;
  maxReconnectAttempts : JsNum;
  reconnectAttempt : JsNum;
  reconnectTimer : option Timer;
  subscriptions : list (string * nat);
  queue : list ClientFrame;
  _connected : bool;
  _clientId : option string;
  objects : list Subscription;
  sent : list ClientFrame;
  emitted : list Lifecycle;
  called : list (Callback * Data);
}.

Definition with_ws (x : option WebSocket) (b : Broadcast) : Broadcast :=
  {| ws := x; url := url b; maxReconnectAttempts := maxReconnectAttempts b;
     reconnectAttempt := reconnectAttempt b; reconnectTimer := reconnectTimer b;
     subscriptions := subscriptions b; queue := queue b;
     _connected := _connected b; _clientId := _clientId b;
     objects := objects b; sent := sent b; emitted := emitted b;
     called := called b |}.

Definition with_reconnectAttempt (x : JsNum) (b : Broadcast) : Broadcast :=
  {| ws := ws b; url := url b; maxReconnectAttempts := maxReconnectAttempts b;
     reconnectAttempt := x; reconnectTimer := reconnectTimer b;
     subscriptions := subscriptions b; queue := queue b;
     _connected := _connected b; _clientId := _clientId b;
     objects := objects b; sent := sent b; emitted := emitted b;
     called := called b |}.

Definition with_reconnectTimer (x : option Timer) (b : Broadcast) : Broadcast :=
  {| ws := ws b; url := url b; maxReconnectAttempts := maxReconnectAttempts b;
     reconnectAttempt := reconnectAttempt b; reconnectTimer := x;
     subscriptions := subscriptions b; queue := queue b;
     _connected := _connected b; _clientId := _clientId b;
     objects := objects b; sent := sent b; emitted := emitted b;
     called := called b |}.

Definition with_subscriptions (x : list (string * nat)) (b : Broadcast) : Broadcast :=
  {| ws := ws b; url := url b; maxReconnectAttempts := maxReconnectAttempts b;
     reconnectAttempt := reconnectAttempt b; reconnectTimer := reconnectTimer b;
     subscriptions := x; queue := queue b;
     _connected := _connected b; _clientId := _clientId b;
     objects := objects b; sent := sent b; emitted := emitted b;
     called := called b |}.

Definition with_queue (x : list ClientFrame) (b : Broadcast) : Broadcast :=
  {| ws := ws b; url := url b; maxReconnectAttempts := maxReconnectAttempts b;
     reconnectAttempt := reconnectAttempt b; reconnectTimer := reconnectTimer b;
     subscriptions := subscriptions b; queue := x;
     _connected := _connected b; _clientId := _clientId b;
     objects := objects b; sent := sent b; emitted := emitted b;
     called := called b |}.

Definition with_connected (x : bool) (b : Broadcast) : Broadcast :=
  {| ws := ws b; url := url b; maxReconnectAttempts := maxReconnectAttempts b;
     reconnectAttempt := reconnectAttempt b; reconnectTimer := reconnectTimer b;
     subscriptions := subscriptions b; queue := queue b;
     _connected := x; _clientId := _clientId b;
     objects := objects b; sent := sent b; emitted := emitted b;
     called := called b |}.

Definition with_clientId (x : option string) (b : Broadcast) : Broadcast :=
  {| ws := ws b; url := url b; maxReconnectAttempts := maxReconnectAttempts b;
     reconnectAttempt := reconnectAttempt b; reconnectTimer := reconnectTimer b;
     subscriptions := subscriptions b; queue := queue b;
     _connected := _connected b; _clientId := x;
     objects := objects b; sent := sent b; emitted := emitted b;
     called := called b |}.

Definition with_objects (x : list Subscription) (b : Broadcast) : Broadcast :=
  {| ws := ws b; url := url b; maxReconnectAttempts := maxReconnectAttempts b;
     reconnectAttempt := reconnectAttempt b; reconnectTimer := reconnectTimer b;
     subscriptions := subscriptions b; queue := queue b;
     _connected := _connected b; _clientId := _clientId b;
     objects := x; sent := sent b; emitted := emitted b;
     called := called b |}.

Definition with_sent (x : list ClientFrame) (b : Broadcast) : Broadcast :=
  {| ws := ws b; url := url b; maxReconnectAttempts := maxReconnectAttempts b;
     reconnectAttempt := reconnectAttempt b; reconnectTimer := reconnectTimer b;
     subscriptions := subscriptions b; queue := queue b;
     _connected := _connected b; _clientId := _clientId b;
     objects := objects b; sent := x; emitted := emitted b;
     called := called b |}.

Definition with_emitted (x : list Lifecycle) (b : Broadcast) : Broadcast :=
  {| ws := ws b; url := url b; maxReconnectAttempts := maxReconnectAttempts b;
     reconnectAttempt := reconnectAttempt b; reconnectTimer := reconnectTimer b;
     subscriptions := subscriptions b; queue := queue b;
     _connected := _connected b; _clientId := _clientId b;
     objects := objects b; sent := sent b; emitted := x;
     called := called b |}.

Definition with_called (x : list (Callback * Data)) (b : Broadcast) : Broadcast :=
  {| ws := ws b; url := url b; maxReconnectAttempts := maxReconnectAttempts b;
     reconnectAttempt := reconnectAttempt b; reconnectTimer := reconnectTimer b;
     subscriptions := subscriptions b; queue := queue b;
     _connected := _connected b; _clientId := _clientId b;
     objects := objects b; sent := sent b; emitted := emitted b;
     called := x |}.

Definition with_listeners (l : list (string * list Callback)) (s : Subscription) :=
  {| channel := channel s; listeners := l |}.

(** [this.ws?.readyState === WebSocket.OPEN] *)
Definition isOpen (b : Broadcast) : bool :=
  match ws b with
  | Some {| readyState := OPEN |} => true
  | _ => false
  end.

(** [this.ws!.send(raw)] of a browser socket: a [TypeError] without a
    socket, an [InvalidStateError] while connecting, transmission when
    open, and the data is discarded once closing or closed. *)
Definition socket_send (raw : ClientFrame) : M Broadcast unit :=
  b <- get ;;
  match ws b with
  | None => throw TypeError
  | Some s =>
      match readyState s with
      | CONNECTING => throw InvalidStateError
      | OPEN => modify (λ b, with_sent (sent b ++ [raw]) b)
      | CLOSING | CLOSED => ret ()
      end
  end.

(** [emit(event, data)] on a client on which [Broadcast.on] was never
    called: the listener map holds no set for the event, so nothing is
    called; the model keeps the event. [emitL] below is [emit] with the
    listeners. *)
Definition emit (e : Lifecycle) : M Broadcast unit :=
  modify (λ b, with_emitted (emitted b ++ [e]) b).

Definition send (msg : ClientFrame) : M Broadcast unit :=
  b <- get ;;
  if (_connected b && isOpen b)%bool
  then socket_send msg
  else modify (λ b, with_queue (queue b ++ [msg]) b).

Definition rawSend (msg : ClientFrame) : M Broadcast unit :=
  b <- get ;;
  if isOpen b then socket_send msg else ret ().

Definition scheduleReconnect : M Broadcast unit :=
  b <- get ;;
  if ge (reconnectAttempt b) (maxReconnectAttempts b) then ret () else
  modify (λ b, with_reconnectAttempt (incr (reconnectAttempt b)) b) ;;;
  b <- get ;;
  let delay := backoff (reconnectAttempt b) in
  emit (reconnecting (reconnectAttempt b)) ;;;
  modify (with_reconnectTimer (Some {| delay := delay; pending := true |})).

(** [connect]: a new socket, still connecting, with the four handlers
    below attached. *)
Definition connect : M Broadcast unit :=
  modify (with_ws (Some {| readyState := CONNECTING |})).

Definition onopen : M Broadcast unit :=
  modify (with_connected true) ;;;
  modify (with_reconnectAttempt (Num 0)) ;;;
  emit connected.

(** [Subscription._dispatch] *)
Definition _dispatch (h : nat) (event : string) (data : Data) : M Broadcast unit :=
  b <- get ;;
  match objects b !! h with
  | None => ret ()
  | Some s =>
      match JsMap.get event (listeners s) with
      | Some set =>
          for_each set (λ cb, modify (λ b, with_called (called b ++ [(cb, data)]) b))
      | None => ret ()
      end
  end.

Definition handleMessage (msg : option ServerFrame) : M Broadcast unit :=
  match msg with
  | Some (Welcome id) =>
      modify (with_clientId (Some id)) ;;;
      (* Re-subscribe to all active channels *)
      b <- get ;;
      for_each (JsMap.keys (subscriptions b)) (λ channel, rawSend (Sub channel)) ;;;
      (* Flush queued messages *)
      b <- get ;;
      for_each (queue b) socket_send ;;;
      modify (with_queue [])
  | Some (SubOk c) => emit (subscribed c)
  | Some (SubErr c r) => emit (error c r)
  | Some (Msg c e d) =>
      b <- get ;;
      match JsMap.get c (subscriptions b) with
      | Some h => _dispatch h e d
      | None => ret ()
      end
  | Some Ping => rawSend Pong
  | None => ret ()
  end.

(** A text frame from the server: not JSON, JSON with an unknown tag, or
    one of the server envelopes. *)
Inductive RawMessage :=
| Malformed
| Unknown
| Frame (f : ServerFrame).

Definition onmessage (raw : RawMessage) : M Broadcast unit :=
  try_catch
    (msg <- await (match raw with
                   | Malformed => Throw SyntaxError
                   | Unknown => Ok None
                   | Frame f => Ok (Some f)
                   end) ;;
     handleMessage msg)
    (ret ()).

Definition onclose : M Broadcast unit :=
  b <- get ;;
  let wasConnected := _connected b in
  modify (with_connected false) ;;;
  (if wasConnected then emit disconnected else ret ()) ;;;
  scheduleReconnect.

(** [WebSocket.prototype.close] *)
Definition socket_close (s : WebSocket) : WebSocket :=
  match readyState s with
  | CONNECTING | OPEN => {| readyState := CLOSING |}
  | CLOSING | CLOSED => s
  end.

Definition onerror : M Broadcast unit :=
  modify (λ b, with_ws (socket_close <$> ws b) b).

(** [new Broadcast({ url, maxReconnectAttempts })] *)
Definition new (url : string) (maxReconnectAttempts : option JsNum) : Broadcast :=
  (connect
     {| ws := None; url := url;
        maxReconnectAttempts := default Infinity maxReconnectAttempts;
        reconnectAttempt := Num 0; reconnectTimer := None;
        subscriptions := []; queue := []; _connected := false;
        _clientId := None; objects := []; sent := []; emitted := [];
        called := [] |}).2.

(** [subscribe(channel)]: the handle of the subscription object. *)
Definition subscribe (channel : string) : M Broadcast nat :=
  b <- get ;;
  match JsMap.get channel (subscriptions b) with
  | Some existing => ret existing
  | None =>
      let sub := List.length (objects b) in
      modify (λ b, with_objects
        (objects b ++ [{| channel := channel; listeners := [] |}]) b) ;;;
      modify (λ b, with_subscriptions (JsMap.set channel sub (subscriptions b)) b) ;;;
      b <- get ;;
      (if _connected b then rawSend (Sub channel) else ret ()) ;;;
      ret sub
  end.

(** [Subscription.on(event, callback)]; the remover it returns is not
    modelled. *)
Definition on (h : nat) (event : string) (callback : Callback) : M Broadcast unit :=
  modify (λ b, with_objects
    (alter (λ s, with_listeners
              (JsMap.set event
                 (JsSet.add callback (default [] (JsMap.get event (listeners s))))
                 (listeners s)) s) h (objects b)) b).

(** [Subscription.send(event, data)] *)
Definition sub_send (h : nat) (event : string) (data : Data) : M Broadcast unit :=
  b <- get ;;
  match objects b !! h with
  | None => ret ()
  | Some s => send (ClientMsg (channel s) event data)
  end.

(** [Subscription.leave()] *)
Definition leave (h : nat) : M Broadcast unit :=
  b <- get ;;
  match objects b !! h with
  | None => ret ()
  | Some s =>
      send (Unsub (channel s)) ;;;
      modify (λ b, with_objects (alter (with_listeners []) h (objects b)) b) ;;;
      modify (λ b, with_subscriptions (JsMap.delete (channel s) (subscriptions b)) b)
  end.

(** [close()] *)
Definition close : M Broadcast unit :=
  modify (with_reconnectAttempt Infinity) ;;;
  modify (λ b, with_reconnectTimer
    ((λ t, {| delay := delay t; pending := false |}) <$> reconnectTimer b) b) ;;;
  modify (λ b, with_ws None b).

(** *** Runs of the client *)

(** Calls of the application and events of the browser. *)
Inductive Op :=
| CallSubscribe (channel : string)
| CallOn (h : nat) (event : string) (callback : Callback)
| CallSend (h : nat) (event : string) (data : Data)
| CallLeave (h : nat)
| CallClose
| SocketOpen
| SocketMessage (raw : RawMessage)
| SocketClose
| SocketError
| TimerFires.

(** When the browser can deliver an event: [open] to a connecting
    socket, a message to an open one, [close] to a socket not yet closed
    (the socket that [close()] let go of included), a timer that is
    pending. *)
Definition enabled (op : Op) (b : Broadcast) : bool :=
  match op with
  | SocketOpen =>
      match ws b with Some {| readyState := CONNECTING |} => true | _ => false end
  | SocketMessage _ => isOpen b
  | SocketClose =>
      match ws b with
      | Some {| readyState := CLOSED |} => false
      | _ => true
      end
  | TimerFires =>
      match reconnectTimer b with Some t => pending t | None => false end
  | _ => true
  end.

(** The browser changes the socket's [readyState] before it calls the
    handler, and retires a timer before it runs its function. *)
Definition perform (op : Op) : M Broadcast unit :=
  match op with
  | CallSubscribe c => subscribe c ;;; ret ()
  | CallOn h e cb => on h e cb
  | CallSend h e d => sub_send h e d
  | CallLeave h => leave h
  | CallClose => close
  | SocketOpen => modify (with_ws (Some {| readyState := OPEN |})) ;;; onopen
  | SocketMessage raw => onmessage raw
  | SocketClose =>
      modify (λ b, with_ws ((λ _, {| readyState := CLOSED |}) <$> ws b) b) ;;;
      onclose
  | SocketError => onerror
  | TimerFires =>
      modify (λ b, with_reconnectTimer
        ((λ t, {| delay := delay t; pending := false |}) <$> reconnectTimer b) b) ;;;
      connect
  end.

Definition step (op : Op) (b : Broadcast) : Broadcast :=
  if enabled op b then (perform op b).2 else b.

Fixpoint run (ops : list Op) (b : Broadcast) : Broadcast :=
  match ops with
  | [] => b
  | op :: ops' => run ops' (step op b)
  end.

(** *** Scenarios *)

(** A client that subscribed to two channels while connected and then
    lost its connection. *)
Definition offline_client : Broadcast :=
  run [ SocketOpen; SocketMessage (Frame (Welcome "x"));
        CallSubscribe "chat/1"; CallSubscribe "chat/2";
        CallOn 0 "message" 7;
        SocketClose ]
      (new "wss://host/_broadcast" None).

(** It leaves the first channel while offline, and the connection comes
    back. *)
Definition leave_offline_then_reconnect : list Op :=
  [ CallLeave 0; TimerFires; SocketOpen; SocketMessage (Frame (Welcome "y")) ].

(** It sends two messages while offline, and the connection comes back. *)
Definition send_offline_then_reconnect : list Op :=
  [ CallSend 0 "send" "first"; CallSend 1 "send" "second";
    TimerFires; SocketOpen; SocketMessage (Frame (Welcome "y")) ].

(** The same client with two messages queued and a new socket being
    connected. *)
Definition reconnecting_client : Broadcast :=
  run [ CallSend 0 "send" "first"; CallSend 1 "send" "second"; TimerFires ]
      offline_client.

(** Six connection attempts in a row that fail. *)
Definition six_failures : list Op :=
  [ SocketClose; TimerFires; SocketClose; TimerFires; SocketClose; TimerFires;
    SocketClose; TimerFires; SocketClose; TimerFires; SocketClose ].

(** *** Notions used to state the client's properties *)

(** The listeners an incoming [msg] for channel [c] and event [e] is
    dispatched to: those of the subscription the map holds for [c]. *)
Definition listenersFor (b : Broadcast) (c e : string) : list Callback :=
  default [] (h ← JsMap.get c (subscriptions b);
              s ← objects b !! h;
              JsMap.get e (listeners s)).

(** The frame [Subscription.send] makes for a call on handle [m.1.1]
    with event [m.1.2] and data [m.2]; none for a handle that is no
    subscription. *)
Definition frameOf (b : Broadcast) (m : nat * string * Data) : option ClientFrame :=
  (λ s, ClientMsg (channel s) m.1.2 m.2) <$> objects b !! m.1.1.

(** Calls of [Subscription.send], one after the other. *)
Definition sends (msgs : list (nat * string * Data)) : list Op :=
  (λ m, CallSend m.1.1 m.1.2 m.2) <$> msgs.

(** Events that do not announce a reconnection. *)
Definition quiet (e : Lifecycle) : Prop :=
  match e with reconnecting _ => False | _ => True end.

(** Calls of the application on subscriptions, and frames from the
    server: what does not touch the connection itself. *)
Definition app_op (op : Op) : bool :=
  match op with
  | CallSubscribe _ | CallOn _ _ _ | CallSend _ _ _ | CallLeave _
  | SocketMessage _ => true
  | _ => false
  end.


(** What the reconnection logic keeps true of a client whose limit is
    [mx]. *)
Definition attempt_ok (mx a : JsNum) : Prop :=
  match a with
  | Infinity => True
  | Num k => (0 ≤ k)%Z ∧ (k = 0%Z ∨ ge mx (Num k) = true)
  end.

Definition event_ok (mx : JsNum) (e : Lifecycle) : Prop :=
  match e with
  | reconnecting a => ∃ k, a = Num k ∧ (1 ≤ k)%Z ∧ ge mx (Num k) = true
  | _ => True
  end.

Definition timer_ok (t : option Timer) : Prop :=
  match t with
  | Some t => (1000 ≤ delay t ≤ 30000)%Z
  | None => True
  end.

Definition bounded (mx : JsNum) (b : Broadcast) : Prop :=
  maxReconnectAttempts b = mx
  ∧ attempt_ok mx (reconnectAttempt b)
  ∧ Forall (event_ok mx) (emitted b)
  ∧ timer_ok (reconnectTimer b).

(** *** Lifecycle listeners *)

(** What a lifecycle listener does when it is called: calls on the
    client and on its subscriptions, or a [throw]. A listener that itself
    registers lifecycle listeners is not modelled. *)
Inductive Call :=
| DoSubscribe (channel : string)
| DoOn (h : nat) (event : string) (callback : Callback)
| DoSend (h : nat) (event : string) (data : Data)
| DoLeave (h : nat)
| DoClose
| DoThrow.

(** A listener function: its identity and its body. *)
Record Listener := { ident : nat; body : list Call }.

Global Instance Call_eq_dec : EqDecision Call.
Proof. solve_decision. Defined.

Global Instance Listener_eq_dec : EqDecision Listener.
Proof. solve_decision. Defined.

(** A client together with the [listeners] map of [Broadcast]. *)
Record Listening := {
  client : Broadcast;
  lifecycle : list (string * list Listener);
}.

Definition with_client (b : Broadcast) (s : Listening) : Listening :=
  {| client := b; lifecycle := lifecycle s |}.

(** A method of the client that does not touch the listeners. *)
Definition lift {A} (m : M Broadcast A) : M Listening A :=
  λ s, ((m (client s)).1, with_client (m (client s)).2 s).


















End Client.


(** * Verification *)

(** ** Sets and maps *)

Section JsSetFacts.
Context {A : Type} `{EqDecision A}.
Implicit Types (x y : A) (s : list A).

Lemma JsSet_has_true x s : JsSet.has x s = true ↔ x ∈ s.
Proof. unfold JsSet.has. apply bool_decide_eq_true. Qed.

Lemma JsSet_has_false x s : JsSet.has x s = false ↔ x ∉ s.
Proof. unfold JsSet.has. apply bool_decide_eq_false. Qed.

Lemma JsSet_elem_of_add x y s : x ∈ JsSet.add y s ↔ x = y ∨ x ∈ s.
Proof.
  unfold JsSet.add. destruct (JsSet.has y s) eqn:E.
  - apply JsSet_has_true in E. split; [auto | intros [-> | ?]; auto].
  - rewrite elem_of_app, list_elem_of_singleton. tauto.
Qed.

Lemma JsSet_add_present x s : x ∈ s → JsSet.add x s = s.
Proof. intros H. unfold JsSet.add. apply JsSet_has_true in H. by rewrite H. Qed.

Lemma JsSet_add_nonempty x s : JsSet.add x s ≠ [].
Proof.
  unfold JsSet.add. destruct (JsSet.has x s) eqn:E.
  - apply JsSet_has_true in E. intros ->. by apply not_elem_of_nil in E.
  - destruct s; discriminate.
Qed.

Lemma JsSet_NoDup_add x s : NoDup s → NoDup (JsSet.add x s).
Proof.
  intros H. unfold JsSet.add. destruct (JsSet.has x s) eqn:E; [done |].
  apply JsSet_has_false in E. apply NoDup_app. split_and!; [done | | apply NoDup_singleton].
  intros z Hz ->%list_elem_of_singleton. done.
Qed.

Lemma JsSet_elem_of_delete x y s : x ∈ JsSet.delete y s ↔ x ≠ y ∧ x ∈ s.
Proof. unfold JsSet.delete. by rewrite list_elem_of_filter. Qed.

Lemma JsSet_NoDup_delete x s : NoDup s → NoDup (JsSet.delete x s).
Proof. apply NoDup_filter. Qed.

Lemma JsSet_delete_absent x s : x ∉ s → JsSet.delete x s = s.
Proof.
  unfold JsSet.delete. induction s as [|y s IH]; [done |].
  intros H. apply not_elem_of_cons in H as [Hne Hs].
  rewrite filter_cons_True by congruence. f_equal. auto.
Qed.

Lemma JsSet_size_delete x s :
  NoDup s → x ∈ s → JsSet.size (JsSet.delete x s) = JsSet.size s - 1.
Proof.
  unfold JsSet.size, JsSet.delete. induction 1 as [|y s Hy Hnd IH]; intros Hx.
  - by apply not_elem_of_nil in Hx.
  - destruct (decide (y = x)) as [->|Hne].
    + rewrite filter_cons_False by (intros ?; congruence).
      fold (JsSet.delete x s). rewrite JsSet_delete_absent by done. simpl. lia.
    + rewrite filter_cons_True by done. apply elem_of_cons in Hx as [?|Hx]; [congruence|].
      simpl. rewrite IH by done. destruct s; [by apply not_elem_of_nil in Hx | simpl; lia].
Qed.

Lemma JsSet_size_zero s : Nat.eqb (JsSet.size s) 0 = true ↔ s = [].
Proof. unfold JsSet.size. rewrite Nat.eqb_eq. apply length_zero_iff_nil. Qed.

End JsSetFacts.

(** ** The hub: how each operation changes the state *)

Module HubFacts.
Import Hub Wire.
Implicit Types (h : BroadcastManager) (w : World) (m : gmap string (list string)).

Lemma with_hub_same w : with_hub (hub w) w = w.
Proof. by destruct w. Qed.

Lemma with_subscribers_same h : with_subscribers (_subscribers h) h = h.
Proof. by destruct h. Qed.

Lemma index_without_lookup cid ch m ch' :
  default [] (index_without cid ch m !! ch') =
  if decide (ch' = ch) then JsSet.delete cid (default [] (m !! ch))
  else default [] (m !! ch').
Proof.
  unfold index_without. destruct (m !! ch) as [s|] eqn:E; simpl.
  - destruct (Nat.eqb _ 0) eqn:Z.
    + apply JsSet_size_zero in Z. rewrite lookup_delete. rewrite Z.
      destruct (decide (ch = ch')), (decide (ch' = ch)); by subst.
    + rewrite lookup_insert.
      destruct (decide (ch = ch')), (decide (ch' = ch)); by subst.
  - destruct (decide (ch' = ch)) as [->|]; [by rewrite E | done].
Qed.

Lemma index_without_entry cid ch m ch' s :
  index_without cid ch m !! ch' = Some s →
  (ch' = ch ∧ s ≠ [] ∧ ∃ s0, m !! ch = Some s0 ∧ s = JsSet.delete cid s0)
  ∨ (ch' ≠ ch ∧ m !! ch' = Some s).
Proof.
  unfold index_without. destruct (m !! ch) as [s0|] eqn:E; simpl.
  - destruct (Nat.eqb _ 0) eqn:Z.
    + rewrite lookup_delete. case_decide; [done | auto].
    + rewrite lookup_insert. case_decide as Hc; [| auto].
      intros [= <-]. subst. left. split_and!; [done | | eauto].
      intros Hn. apply JsSet_size_zero in Hn. congruence.
  - intros H. destruct (decide (ch' = ch)) as [->|]; [congruence | auto].
Qed.

Lemma index_with_lookup cid ch m ch' :
  default [] (index_with cid ch m !! ch') =
  if decide (ch' = ch) then JsSet.add cid (default [] (m !! ch))
  else default [] (m !! ch').
Proof.
  unfold index_with. rewrite lookup_insert.
  destruct (decide (ch = ch')), (decide (ch' = ch)); by subst.
Qed.

Lemma index_with_entry cid ch m ch' s :
  index_with cid ch m !! ch' = Some s →
  (ch' = ch ∧ s = JsSet.add cid (default [] (m !! ch)))
  ∨ (ch' ≠ ch ∧ m !! ch' = Some s).
Proof.
  unfold index_with. rewrite lookup_insert. case_decide; [| auto].
  intros [= <-]. auto.
Qed.

Lemma index_without_tidy cid ch m : index_tidy m → index_tidy (index_without cid ch m).
Proof.
  intros Hm ch' s [(-> & Hne & s0 & Hs0 & ->)|[_ Hs]]%index_without_entry.
  - split; [done |]. apply JsSet_NoDup_delete. by apply (Hm ch).
  - by apply (Hm ch').
Qed.

Lemma index_with_tidy cid ch m : index_tidy m → index_tidy (index_with cid ch m).
Proof.
  intros Hm ch' s [[-> ->]|[_ Hs]]%index_with_entry.
  - split; [apply JsSet_add_nonempty |]. apply JsSet_NoDup_add.
    destruct (m !! ch) as [s0|] eqn:E; simpl; [by apply (Hm ch) | constructor].
  - by apply (Hm ch').
Qed.

(** The index after the loop of [removeClient]. *)
Lemma index_without_all_lookup cid chans m ch' x :
  x ∈ default [] (foldl (λ m ch, index_without cid ch m) m chans !! ch') ↔
  x ∈ default [] (m !! ch') ∧ ¬ (x = cid ∧ ch' ∈ chans).
Proof.
  revert m. induction chans as [|ch chans IH]; intros m; simpl.
  - split; [intros ?; split; [done | intros [_ []%not_elem_of_nil]] | tauto].
  - rewrite IH, index_without_lookup. rewrite elem_of_cons.
    case_decide as Hc; [subst; rewrite JsSet_elem_of_delete |]; tauto.
Qed.

Lemma index_without_all_tidy cid chans m :
  index_tidy m → index_tidy (foldl (λ m ch, index_without cid ch m) m chans).
Proof.
  revert m. induction chans as [|ch chans IH]; intros m Hm; simpl; [done |].
  apply IH. by apply index_without_tidy.
Qed.

(** [dropSubscriber] and its loop, as functions of the index. *)
Lemma dropSubscriber_run cid ch w :
  dropSubscriber cid ch w =
  (Ok (), with_hub (with_subscribers
                      (index_without cid ch (_subscribers (hub w))) (hub w)) w).
Proof.
  unfold dropSubscriber, index_without, get_hub, modify_hub, bind, get, ret, modify.
  simpl. destruct (_subscribers (hub w) !! ch) as [s|]; simpl.
  - by destruct (Nat.eqb _ 0).
  - by rewrite with_subscribers_same, with_hub_same.
Qed.

Lemma dropSubscriber_loop cid chans w :
  for_each chans (dropSubscriber cid) w =
  (Ok (), with_hub (with_subscribers
                      (foldl (λ m ch, index_without cid ch m)
                             (_subscribers (hub w)) chans) (hub w)) w).
Proof.
  revert w. induction chans as [|ch chans IH]; intros w; simpl.
  - unfold ret. by rewrite with_subscribers_same, with_hub_same.
  - unfold bind. rewrite dropSubscriber_run, IH. by destruct w as [[] ? ?].
Qed.

(** Tactics that run monadic code symbolically. *)
Ltac mrun :=
  unfold update_client, get_hub, modify_hub, log, bind, ret, throw,
    try_catch, await, get, modify in *; simpl in *.

Lemma ws_send_run s f w :
  ws_send s f w =
  if decide (ws_id s ∈ broken w) then (Throw SendError, w)
  else (Ok (), with_trace (trace w ++ [EvSend (ws_id s) f]) w).
Proof. unfold ws_send. by case_decide. Qed.

Lemma ws_send_hub s f w : hub (ws_send s f w).2 = hub w.
Proof. rewrite ws_send_run. by case_decide. Qed.

Lemma ws_send_broken s f w : broken (ws_send s f w).2 = broken w.
Proof. rewrite ws_send_run. by case_decide. Qed.

Ltac send_cases :=
  repeat (rewrite ws_send_run; simpl; case_decide; simpl; try done).

Lemma handleSubscribe_hub client ch w :
  hub (handleSubscribe client ch w).2 = hub w
  ∨ hub (handleSubscribe client ch w).2 = joined client ch (hub w).
Proof.
  unfold handleSubscribe, matchChannel, joined.
  destruct (falsy ch); [by left |].
  destruct (JsSet.has ch (channels client)); [left; apply ws_send_hub |].
  mrun. destruct (firstMatch _ ch) as [[def params]|]; [| left; apply ws_send_hub].
  destruct (authorize def) as [auth|]; simpl.
  - destruct (ctxReady client) as [ctx|e]; simpl.
    + destruct (auth ctx params) as [[]|e]; simpl.
      * right. by send_cases.
      * left. by send_cases.
      * left. by send_cases.
    + left. by send_cases.
  - right. by send_cases.
Qed.

Lemma handleUnsubscribe_hub client ch w :
  hub (handleUnsubscribe client ch w).2 = hub w
  ∨ hub (handleUnsubscribe client ch w).2 = parted client ch (hub w).
Proof.
  unfold handleUnsubscribe, parted. destruct (falsy ch); [by left |].
  right. mrun. by rewrite dropSubscriber_run.
Qed.

Lemma handleMessage_hub client ch ev d w :
  hub (handleMessage client ch ev d w).2 = hub w
  ∨ ∃ ctx, hub (handleMessage client ch ev d w).2 =
           with_clients (alter (with_ctxReady (Ok ctx)) (clientId client)
                               (_clients (hub w))) (hub w).
Proof.
  unfold handleMessage, matchChannel.
  destruct (falsy ch || falsy ev)%bool; [by left |].
  destruct (negb _); [by left |].
  mrun. destruct (firstMatch _ ch) as [[def params]|]; [| by left].
  destruct (property (messages def) ev) as [handler|]; [| by left].
  destruct (ctxReady client) as [ctx|e]; simpl; [| by left].
  right. by exists {| request := request ctx; ctx_clientId := Some (clientId client) |}.
Qed.

Lemma broadcast_loop_hub (subs : list string) msg excl w :
  hub (for_each subs (λ clientId,
        if decide (Some clientId = excl) then ret () else
        h <- get_hub ;;
        match _clients h !! clientId with
        | Some client => try_catch (ws_send (ws client) msg) (ret ())
        | None => ret ()
        end) w).2 = hub w
  ∧ (for_each subs (λ clientId,
        if decide (Some clientId = excl) then ret () else
        h <- get_hub ;;
        match _clients h !! clientId with
        | Some client => try_catch (ws_send (ws client) msg) (ret ())
        | None => ret ()
        end) w).1 = Ok ().
Proof.
  revert w. induction subs as [|cid subs IH]; intros w; simpl; [done |].
  unfold bind at 1 3. case_decide; simpl; [apply IH |].
  mrun. destruct (_clients (hub w) !! cid) as [c|]; simpl; [| apply IH].
  rewrite ws_send_run. case_decide; simpl; [apply IH |].
  destruct (IH (with_trace (trace w ++ [EvSend (ws_id (ws c)) msg]) w)) as [-> ->].
  done.
Qed.

Lemma broadcastToChannel_hub ch ev d excl w :
  hub (broadcastToChannel ch ev d excl w).2 = hub w
  ∧ (broadcastToChannel ch ev d excl w).1 = Ok ().
Proof.
  unfold broadcastToChannel. unfold bind at 1 2, get_hub. mrun.
  destruct (_subscribers (hub w) !! ch) as [subs|]; [| done].
  destruct (Nat.eqb _ 0); [done |]. apply broadcast_loop_hub.
Qed.

Lemma removeClient_hub cid w :
  hub (removeClient cid w).2 =
  match _clients (hub w) !! cid with
  | Some client => removed client cid (hub w)
  | None => hub w
  end.
Proof.
  unfold removeClient, removed. mrun.
  destruct (_clients (hub w) !! cid) as [c|]; [| done].
  by rewrite dropSubscriber_loop.
Qed.

(** ** The hub: the invariant holds along every run *)

Implicit Types (c client : ClientConnection).

Lemma channelsOf_alter f cid h x :
  channelsOf (with_clients (alter f cid (_clients h)) h) x =
  if decide (x = cid)
  then match _clients h !! cid with Some c => channels (f c) | None => [] end
  else channelsOf h x.
Proof.
  unfold channelsOf. simpl. rewrite lookup_alter.
  destruct (decide (cid = x)), (decide (x = cid)); subst; try done.
  by destruct (_clients h !! x).
Qed.

Lemma hub_ok_tidy h : hub_ok h → index_tidy (_subscribers h).
Proof. intros [] ch s Hs. eauto. Qed.

Lemma init_ok : hub_ok (hub init).
Proof.
  split; simpl; try (intros ? ? H; by rewrite lookup_empty in H).
  intros ch cid. unfold subscribersOf, channelsOf. simpl.
  rewrite !lookup_empty. simpl. split; intros []%not_elem_of_nil.
Qed.

Lemma joined_ok client ch h :
  hub_ok h → _clients h !! clientId client = Some client →
  hub_ok (joined client ch h).
Proof.
  intros Hok Hc. pose proof (hub_ok_tidy _ Hok) as Ht. destruct Hok.
  split.
  - unfold joined; simpl.
    intros k c [(<- & c0 & Hc0 & ->)|[_ ?]]%lookup_alter_Some; simpl; eauto.
  - intros ch' x. unfold subscribersOf.
    change (_subscribers (joined client ch h))
      with (index_with (clientId client) ch (_subscribers h)).
    rewrite index_with_lookup.
    change (channelsOf (joined client ch h) x)
      with (channelsOf (with_clients (alter
              (λ c, with_client_channels (JsSet.add ch (channels c)) c)
              (clientId client) (_clients h)) h) x).
    rewrite channelsOf_alter, Hc. simpl.
    specialize (ok_index0 ch' x). unfold subscribersOf in ok_index0.
    pose proof (ok_index0) as Hi.
    destruct (decide (ch' = ch)) as [->|Hch], (decide (x = clientId client)) as [->|Hx].
    + rewrite !JsSet_elem_of_add. tauto.
    + rewrite JsSet_elem_of_add. tauto.
    + rewrite JsSet_elem_of_add. unfold channelsOf in Hi. rewrite Hc in Hi. tauto.
    + done.
  - intros ch' s Hs. eapply (index_with_tidy (clientId client) ch _ Ht ch' s). exact Hs.
  - intros ch' s Hs. eapply (index_with_tidy (clientId client) ch _ Ht ch' s). exact Hs.
  - unfold joined; simpl.
    intros k c [(<- & c0 & Hc0 & ->)|[_ ?]]%lookup_alter_Some; simpl; [| eauto].
    apply JsSet_NoDup_add. eauto.
  - unfold joined; simpl.
    intros k c [(<- & c0 & Hc0 & ->)|[_ ?]]%lookup_alter_Some; simpl; eauto.
Qed.

Lemma parted_ok client ch h :
  hub_ok h → _clients h !! clientId client = Some client →
  hub_ok (parted client ch h).
Proof.
  intros Hok Hc. pose proof (hub_ok_tidy _ Hok) as Ht. destruct Hok.
  split.
  - unfold parted; simpl.
    intros k c [(<- & c0 & Hc0 & ->)|[_ ?]]%lookup_alter_Some; simpl; eauto.
  - intros ch' x. unfold subscribersOf.
    change (_subscribers (parted client ch h))
      with (index_without (clientId client) ch (_subscribers h)).
    rewrite index_without_lookup.
    change (channelsOf (parted client ch h) x)
      with (channelsOf (with_clients (alter
              (λ c, with_client_channels (JsSet.delete ch (channels c)) c)
              (clientId client) (_clients h)) h) x).
    rewrite channelsOf_alter, Hc. simpl.
    specialize (ok_index0 ch' x). unfold subscribersOf in ok_index0.
    pose proof (ok_index0) as Hi.
    destruct (decide (ch' = ch)) as [->|Hch], (decide (x = clientId client)) as [->|Hx].
    + rewrite !JsSet_elem_of_delete. tauto.
    + rewrite JsSet_elem_of_delete. tauto.
    + rewrite JsSet_elem_of_delete. unfold channelsOf in Hi. rewrite Hc in Hi. tauto.
    + done.
  - intros ch' s Hs. eapply (index_without_tidy (clientId client) ch _ Ht ch' s). exact Hs.
  - intros ch' s Hs. eapply (index_without_tidy (clientId client) ch _ Ht ch' s). exact Hs.
  - unfold parted; simpl.
    intros k c [(<- & c0 & Hc0 & ->)|[_ ?]]%lookup_alter_Some; simpl; [| eauto].
    apply JsSet_NoDup_delete. eauto.
  - unfold parted; simpl.
    intros k c [(<- & c0 & Hc0 & ->)|[_ ?]]%lookup_alter_Some; simpl; eauto.
Qed.

Lemma removed_ok client cid h :
  hub_ok h → _clients h !! cid = Some client → hub_ok (removed client cid h).
Proof.
  intros Hok Hc. pose proof (hub_ok_tidy _ Hok) as Ht. destruct Hok.
  split; simpl.
  - intros k c [? ?]%lookup_delete_Some. eauto.
  - intros ch' x. unfold subscribersOf, channelsOf. simpl.
    rewrite index_without_all_lookup, lookup_delete.
    specialize (ok_index0 ch' x). unfold subscribersOf, channelsOf in ok_index0.
    destruct (decide (cid = x)) as [->|Hx].
    + rewrite Hc in ok_index0. split; [tauto | intros []%not_elem_of_nil].
    + rewrite ok_index0. split; [tauto | intros ?; split; [done | intros [? _]; congruence]].
  - intros ch' s Hs. eapply (index_without_all_tidy cid _ _ Ht ch' s). exact Hs.
  - intros ch' s Hs. eapply (index_without_all_tidy cid _ _ Ht ch' s). exact Hs.
  - intros k c [? ?]%lookup_delete_Some. eauto.
  - intros k c [? ?]%lookup_delete_Some. eauto.
Qed.

Lemma context_set_ok r cid h :
  hub_ok h → hub_ok (with_clients (alter (with_ctxReady r) cid (_clients h)) h).
Proof.
  intros []. split; simpl; eauto.
  - intros k c [(<- & c0 & Hc0 & ->)|[_ ?]]%lookup_alter_Some; simpl; eauto.
  - intros ch x. rewrite channelsOf_alter.
    change (x ∈ subscribersOf h ch ↔
            ch ∈ (if decide (x = cid)
                  then match _clients h !! cid with
                       | Some c => channels (with_ctxReady r c)
                       | None => []
                       end
                  else channelsOf h x)).
    rewrite (ok_index0 ch x). case_decide; [subst | done].
    unfold channelsOf. by destruct (_clients h !! cid).
  - intros k c [(<- & c0 & Hc0 & ->)|[_ ?]]%lookup_alter_Some; simpl; eauto.
  - intros k c [(<- & c0 & Hc0 & ->)|[_ ?]]%lookup_alter_Some; simpl; eauto.
Qed.

Lemma hub_ok_same_tables h h' :
  _clients h' = _clients h → _subscribers h' = _subscribers h →
  _wsToClient h' = _wsToClient h → hub_ok h → hub_ok h'.
Proof.
  intros E1 E2 E3 []. split; unfold subscribersOf, channelsOf in *;
    rewrite ?E1, ?E2, ?E3; done.
Qed.

Lemma opened_ok s uuid r h :
  hub_ok h → _clients h !! uuid = None → _wsToClient h !! ws_id s = None →
  hub_ok (with_clients
            (<[uuid := {| ws := s; clientId := uuid; channels := [];
                          ctxReady := r |}]> (_clients h))
            (with_wsToClient (<[ws_id s := uuid]> (_wsToClient h)) h)).
Proof.
  intros [] Hid Hws. split; simpl; eauto.
  - intros k c [[<- <-]|[_ ?]]%lookup_insert_Some; simpl; eauto.
  - intros ch x. unfold subscribersOf, channelsOf. simpl.
    specialize (ok_index0 ch x). unfold subscribersOf, channelsOf in ok_index0.
    rewrite lookup_insert. case_decide; [subst |]; simpl; [| done].
    by rewrite Hid in ok_index0.
  - intros k c [[<- <-]|[_ ?]]%lookup_insert_Some; simpl; [constructor | eauto].
  - intros k c [[<- <-]|[Hk Hc]]%lookup_insert_Some; simpl.
    + apply lookup_insert_eq.
    + rewrite lookup_insert_ne; [eauto |].
      intros E. apply ok_sockets0 in Hc. congruence.
Qed.

Lemma message_ok s raw w : hub_ok (hub w) → hub_ok (hub (message s raw w).2).
Proof.
  intros Hok. unfold message, try_catch.
  assert (∀ (m : M World unit), hub_ok (hub (m w).2) →
            hub_ok (hub (let (r, w') := m w in
                         match r with
                         | Ok a => (Ok a, w')
                         | Throw _ => ret () w'
                         end).2)) as Hcatch.
  { intros m. destruct (m w) as [[] ?]; done. }
  apply Hcatch. mrun. destruct raw as [| |f]; simpl; [done | |].
  - destruct (_wsToClient (hub w) !! ws_id s) as [cid|]; [| done].
    destruct (falsy cid); [done |].
    by destruct (_clients (hub w) !! cid).
  - destruct (_wsToClient (hub w) !! ws_id s) as [cid|]; [| done].
    destruct (falsy cid); [done |].
    destruct (_clients (hub w) !! cid) as [client|] eqn:Hc; [| done].
    assert (_clients (hub w) !! clientId client = Some client) as Hc'.
    { by rewrite (ok_ids _ Hok _ _ Hc). }
    destruct f as [ch|ch|ch ev d|].
    + destruct (handleSubscribe_hub client ch w) as [-> | ->];
        [done | by apply joined_ok].
    + destruct (handleUnsubscribe_hub client ch w) as [-> | ->];
        [done | by apply parted_ok].
    + destruct (handleMessage_hub client ch ev d w) as [-> | [ctx ->]];
        [done | by apply context_set_ok].
    + done.
Qed.

Lemma step_ok op w :
  hub_ok (hub w) → plausible op w = true → hub_ok (hub (step op w)).
Proof.
  intros Hok Hp. unfold step. destruct op as
    [mw p|pat cfg native|s uuid|s raw|s|ch excl ev d| |b]; simpl.
  - unfold boot. mrun.
    destruct mw, (Z.ltb 0 _); simpl;
      (apply (hub_ok_same_tables (hub w)); done).
  - unfold channel. mrun. destruct (Pattern.parse native pat); [| done].
    destruct cfg as [|f|[]]; simpl;
      (apply (hub_ok_same_tables (hub w)); done).
  - simpl in Hp. apply andb_prop in Hp as [?%bool_decide_eq_true ?%bool_decide_eq_true].
    unfold open. mrun. rewrite ws_send_hub. simpl. by apply opened_ok.
  - by apply message_ok.
  - unfold close. mrun.
    destruct (_wsToClient (hub w) !! ws_id s) as [cid|]; [| done].
    destruct (falsy cid); [done |]. rewrite removeClient_hub.
    destruct (_clients (hub w) !! cid) eqn:Hc; [by apply removed_ok | done].
  - destruct excl; unfold send; simpl;
      by rewrite (proj1 (broadcastToChannel_hub _ _ _ _ _)).
  - unfold reset. mrun. split; simpl; try (intros ? ? H; by rewrite lookup_empty in H).
    intros ch cid. unfold subscribersOf, channelsOf. simpl.
    rewrite !lookup_empty. simpl. split; intros []%not_elem_of_nil.
  - done.
Qed.

Lemma run_ok ops w :
  hub_ok (hub w) → plausible_run ops w = true → hub_ok (hub (run ops w)).
Proof.
  revert w. induction ops as [|op ops IH]; intros w Hok Hp; simpl in *; [done |].
  apply andb_prop in Hp as [Hp1 Hp2]. apply IH; [by apply step_ok | done].
Qed.

(** Along a run whose handlers each complete before the next event, the
    index and the channel sets mirror each other and the index has no
    empty entry. *)
Theorem completed_runs_keep_index (ops : list Op) :
  plausible_run ops init = true → index_mirrors (hub (run ops init)).
Proof.
  intros Hp. destruct (run_ok ops init init_ok Hp). split; [| eauto].
  intros cid ch. apply ok_index0.
Qed.

Lemma completed_runs_keep_index_witness :
  plausible_run chat_session init = true
  ∧ index_mirrors (hub (run chat_session init)).
Proof.
  split; [vm_compute; reflexivity |].
  apply (completed_runs_keep_index chat_session). vm_compute. reflexivity.
Defined.

(** A parked call that is resumed at once is the whole of
    [handleSubscribe]: the two halves are the source's function cut at
    its first [await]. *)
Lemma handleSubscribe_split client ch w :
  handleSubscribe client ch w =
  (r <- handleSubscribe_start client ch ;;
   match r with
   | Some p => handleSubscribe_resume p
   | None => ret ()
   end) w.
Proof.
  unfold handleSubscribe, handleSubscribe_start, handleSubscribe_resume, matchChannel.
  destruct (falsy ch); [done |].
  destruct (JsSet.has ch (channels client)).
  { mrun. rewrite ws_send_run. by case_decide. }
  mrun. destruct (firstMatch _ ch) as [[def params]|].
  { destruct (authorize def) as [auth|] eqn:Ha; simpl; [by rewrite Ha |].
    rewrite ws_send_run. simpl. by case_decide. }
  rewrite ws_send_run. by case_decide.
Qed.

(** C1 (the code departs from it): a connection that closes while its
    authorization is awaited is added to the index when the
    authorization settles. The index then names a connection that has no
    channel set: the index and the channel sets no longer mirror each
    other. *)
Theorem C1_close_during_authorization_breaks_index :
  let h := hub (async_run close_during_authorization init).1 in
  _clients h !! "a" = None
  ∧ _subscribers h !! "chats/7" = Some ["a"]
  ∧ subscriberCount h "chats/7" = 1
  ∧ ¬ index_mirrors h.
Proof.
  assert (_clients (hub (async_run close_during_authorization init).1) !! "a" = None) as H1
    by (vm_compute; reflexivity).
  assert (_subscribers (hub (async_run close_during_authorization init).1) !! "chats/7"
          = Some ["a"]) as H2 by (vm_compute; reflexivity).
  split_and!; [done | done | by vm_compute |].
  intros [Hm _]. specialize (Hm "a" "chats/7").
  unfold subscribersOf, channelsOf in Hm. rewrite H1, H2 in Hm. simpl in Hm.
  apply (not_elem_of_nil "chats/7"). apply Hm. by apply list_elem_of_singleton.
Qed.

(** ** The hub: registry, subscribe flow, fan-out, client messages *)

Lemma firstMatch_None defs n :
  firstMatch defs n = None
  ↔ ∀ d, d ∈ defs → Pattern.execObject (regex d) n = None.
Proof.
  induction defs as [|d defs IH]; simpl.
  - split; [intros _ d []%not_elem_of_nil | done].
  - destruct (Pattern.execObject (regex d) n) as [g|] eqn:E.
    + split; [done |]. intros H. specialize (H d (list_elem_of_here _ _)). congruence.
    + rewrite IH. split.
      * intros H d' [->|?]%elem_of_cons; auto.
      * intros H d' ?. apply H. by apply list_elem_of_further.
Qed.

Lemma firstMatch_Some defs n d params :
  firstMatch defs n = Some (d, params) →
  ∃ pre post groups,
    defs = pre ++ d :: post
    ∧ (∀ d', d' ∈ pre → Pattern.execObject (regex d') n = None)
    ∧ Pattern.execObject (regex d) n = Some groups
    ∧ params = Pattern.extractParamsOf (paramNames d) groups.
Proof.
  induction defs as [|d0 defs IH]; simpl; [done |].
  destruct (Pattern.execObject (regex d0) n) as [g|] eqn:E.
  - intros [= <- <-]. exists [], defs, g. split_and!; try done.
    intros d' []%not_elem_of_nil.
  - intros (pre & post & g & -> & Hpre & Hm & ->)%IH.
    exists (d0 :: pre), post, g. split_and!; try done.
    intros d' [->|?]%elem_of_cons; auto.
Qed.

Lemma channel_run pat cfg native w :
  channel pat cfg native w =
  match definitionOf pat cfg native with
  | Some d =>
      (Ok (), with_hub (with_channels (_channels (hub w) ++ [d]) (hub w)) w)
  | None =>
      (match Pattern.parse native pat with
       | Throw e => Throw e
       | Ok _ => Ok ()
       end, w)
  end.
Proof.
  unfold channel, definitionOf. mrun.
  destruct (Pattern.parse native pat) as [[r names]|e]; [| done].
  by destruct cfg as [|f|[]].
Qed.

Lemma registrations_run
    (regs : list (string * ChannelArg * option Pattern.NativeExec)) w :
  _channels (hub (run ((λ r, OpChannel r.1.1 r.1.2 r.2) <$> regs) w))
  = _channels (hub w) ++ omap (λ r, definitionOf r.1.1 r.1.2 r.2) regs.
Proof.
  revert w. induction regs as [|[[pat cfg] native] regs IH]; intros w; simpl.
  - by rewrite app_nil_r.
  - rewrite IH. unfold step. simpl. rewrite channel_run.
    destruct (definitionOf pat cfg native) as [d|]; simpl; [| done].
    by rewrite <- app_assoc.
Qed.

Lemma definitionOf_cases pat cfg native :
  match Pattern.compile 0 (Pattern.regexStr pat), native with
  | Some r, _ =>
      ∃ d, definitionOf pat cfg native = Some d
           ∧ pattern d = pat ∧ regex d = Pattern.Interpreted r
           ∧ paramNames d = Pattern.pushedNames pat
  | None, Some f =>
      ∃ d, definitionOf pat cfg native = Some d
           ∧ pattern d = pat ∧ regex d = Pattern.Native f
           ∧ paramNames d = Pattern.pushedNames pat
  | None, None => definitionOf pat cfg native = None
  end.
Proof.
  unfold definitionOf, Pattern.parse, Pattern.newRegExp.
  destruct (Pattern.compile 0 (Pattern.regexStr pat)) as [r|];
    [| destruct native as [f|]]; simpl; try done; by eexists.
Qed.

(** C3: [channel] appends one definition per registration (none when
    the constructor of the expression throws), so [_channels] lists the
    definitions in registration order, each with the expression built
    from its pattern; [matchChannel] walks that list in order, returns
    the first definition whose expression matches together with the
    parameters extracted from that match, and [null] when none matches;
    it returns normally and leaves the world as it was. A broad pattern
    registered first hides a narrower one registered after it, whether
    the model interprets its expression or the engine supplies it. *)
Theorem C3_matchChannel_returns_first_match (w : World) (n : string) :
  (∃ r, matchChannel n w = (Ok r, w)
        ∧ match r with
          | None =>
              ∀ d, d ∈ _channels (hub w) → Pattern.execObject (regex d) n = None
          | Some (d, params) =>
              ∃ pre post groups,
                _channels (hub w) = pre ++ d :: post
                ∧ (∀ d', d' ∈ pre → Pattern.execObject (regex d') n = None)
                ∧ Pattern.execObject (regex d) n = Some groups
                ∧ params = Pattern.extractParamsOf (paramNames d) groups
          end)
  ∧ (∀ regs : list (string * ChannelArg * option Pattern.NativeExec),
       _channels (hub (run ((λ r, OpChannel r.1.1 r.1.2 r.2) <$> regs) w))
       = _channels (hub w) ++ omap (λ r, definitionOf r.1.1 r.1.2 r.2) regs)
  ∧ (∀ pat cfg native,
       match Pattern.compile 0 (Pattern.regexStr pat), native with
       | Some r, _ =>
           ∃ d, definitionOf pat cfg native = Some d
                ∧ pattern d = pat ∧ regex d = Pattern.Interpreted r
                ∧ paramNames d = Pattern.pushedNames pat
       | None, Some f =>
           ∃ d, definitionOf pat cfg native = Some d
                ∧ pattern d = pat ∧ regex d = Pattern.Native f
                ∧ paramNames d = Pattern.pushedNames pat
       | None, None => definitionOf pat cfg native = None
       end)
  ∧ (let w3 := run [OpChannel "chats/:id" NoConfig None;
                     OpChannel "chats/7" NoConfig None;
                     OpChannel "files/*path" NoConfig None] init in
     (∃ d, matchChannel "chats/7" w3 = (Ok (Some (d, {[ "id" := Some "7" ]})), w3)
           ∧ pattern d = "chats/:id")
     ∧ (∃ d, matchChannel "files/a/b" w3
             = (Ok (Some (d, {[ "path" := Some "a/b" ]})), w3)
             ∧ pattern d = "files/*path")
     ∧ matchChannel "other" w3 = (Ok None, w3))
  ∧ (∀ (f : Pattern.NativeExec) groups,
       f "user.7" = Some groups →
       let w2 := run [OpChannel "user.:id" NoConfig (Some f);
                      OpChannel ":x" NoConfig None] init in
       ∃ d, matchChannel "user.7" w2
            = (Ok (Some (d, Pattern.extractParamsOf ["id"] groups)), w2)
            ∧ pattern d = "user.:id").
Proof.
  split_and!.
  - exists (firstMatch (_channels (hub w)) n). split; [done |].
    destruct (firstMatch _ n) as [[d params]|] eqn:E.
    + by apply firstMatch_Some.
    + by apply firstMatch_None.
  - intros regs. apply registrations_run.
  - intros pat cfg native. apply definitionOf_cases.
  - cbv zeta. split_and!.
    + exists {| pattern := "chats/:id";
                regex := Pattern.Interpreted
                           (Pattern.lits "chats/" ++ [Pattern.RGroup Pattern.NotSlash]);
                paramNames := ["id"]; authorize := None; messages := None |}.
      split; vm_compute; reflexivity.
    + exists {| pattern := "files/*path";
                regex := Pattern.Interpreted
                           (Pattern.lits "files/" ++ [Pattern.RGroup Pattern.Dot]);
                paramNames := ["path"]; authorize := None; messages := None |}.
      split; vm_compute; reflexivity.
    + vm_compute. reflexivity.
  - intros f groups Hf. cbv zeta.
    exists {| pattern := "user.:id"; regex := Pattern.Native f;
              paramNames := ["id"]; authorize := None; messages := None |}.
    split; [| done].
    unfold matchChannel, get_hub, bind, get, ret.
    assert (_channels (hub (run [OpChannel "user.:id" NoConfig (Some f);
                                 OpChannel ":x" NoConfig None] init))
            = [ {| pattern := "user.:id"; regex := Pattern.Native f;
                   paramNames := ["id"]; authorize := None; messages := None |};
                {| pattern := ":x";
                   regex := Pattern.Interpreted [Pattern.RGroup Pattern.NotSlash];
                   paramNames := ["x"]; authorize := None; messages := None |} ])
      as -> by (vm_compute; reflexivity).
    cbn [firstMatch regex paramNames Pattern.execObject]. by rewrite Hf.
Qed.

Lemma message_never_throws s raw w : (message s raw w).1 = Ok ().
Proof.
  unfold message, try_catch.
  match goal with |- (let (r, _) := ?m in _).1 = _ => destruct m as [[[]|] ?] end; done.
Qed.

Lemma message_sub_run s ch cid client w :
  _wsToClient (hub w) !! ws_id s = Some cid → falsy cid = false →
  _clients (hub w) !! cid = Some client →
  message s (Frame (Sub ch)) w = (Ok (), (handleSubscribe client ch w).2).
Proof.
  intros H1 H2 H3. unfold message. mrun. rewrite H1, H2, H3.
  by destruct (handleSubscribe client ch w) as [[[]|] ?].
Qed.

Lemma handleSubscribe_already client ch w :
  falsy ch = false → ch ∈ channels client →
  handleSubscribe client ch w = ws_send (ws client) (SubOk ch) w.
Proof.
  intros H1 H2%JsSet_has_true. unfold handleSubscribe. by rewrite H1, H2.
Qed.


(** C4: a [sub] for a channel the connection already has is answered
    with [ok] and nothing else happens: no authorization callback runs,
    and the hub, with its index and subscriber counts, stays as it was.
    Hence a second [sub] after a granted one leaves the subscriber count
    where the first one put it. *)
Theorem C4_resubscribe_skips_authorization s cid client ch w :
  _wsToClient (hub w) !! ws_id s = Some cid → falsy cid = false →
  _clients (hub w) !! cid = Some client →
  falsy ch = false → ch ∈ channels client →
  let r := message s (Frame (Sub ch)) w in
  r.1 = Ok ()
  ∧ hub r.2 = hub w
  ∧ trace r.2 =
      trace w ++ (if decide (ws_id (ws client) ∈ broken w) then []
                  else [EvSend (ws_id (ws client)) (SubOk ch)])
  ∧ (∀ p ctx params, EvAuthorize p ctx params ∈ trace r.2 →
                     EvAuthorize p ctx params ∈ trace w)
  ∧ subscriberCount (hub r.2) ch = subscriberCount (hub w) ch.
Proof.
  intros H1 H2 H3 H4 H5. simpl.
  rewrite (message_sub_run s ch cid client w H1 H2 H3).
  rewrite handleSubscribe_already by done. rewrite ws_send_run. simpl.
  case_decide; simpl; split_and!; try done.
  - by rewrite app_nil_r.
  - intros p ctx params [?|[[=]|[]%not_elem_of_nil]%elem_of_cons]%elem_of_app. done.
Qed.

Lemma C4_resubscribe_skips_authorization_witness :
  hub (message ws_a (Frame (Sub "chat/1")) (run chat_session init)).2
  = hub (run chat_session init)
  ∧ subscriberCount
      (hub (message ws_a (Frame (Sub "chat/1")) (run chat_session init)).2)
      "chat/1"
    = subscriberCount (hub (run chat_session init)) "chat/1".
Proof.
  destruct (C4_resubscribe_skips_authorization ws_a "a"
    {| ws := ws_a; clientId := "a"; channels := ["chat/1"];
       ctxReady := Ok {| request := "/_broadcast"; ctx_clientId := None |} |}
    "chat/1" (run chat_session init)) as (_ & Hh & _ & _ & Hc).
  - vm_compute. reflexivity.
  - vm_compute. reflexivity.
  - vm_compute. reflexivity.
  - vm_compute. reflexivity.
  - constructor.
  - split; assumption.
Defined.

(** What a reply adds to the trace: nothing when the socket is broken. *)
Lemma handleSubscribe_refused client ch def params auth w :
  falsy ch = false → ch ∉ channels client →
  firstMatch (_channels (hub w)) ch = Some (def, params) →
  authorize def = Some auth →
  let w' := (handleSubscribe client ch w).2 in
  let reply reason :=
    if decide (ws_id (ws client) ∈ broken w) then []
    else [EvSend (ws_id (ws client)) (SubErr ch reason)] in
  (∀ ctx, ctxReady client = Ok ctx → auth ctx params = Ok false →
     hub w' = hub w
     ∧ trace w' = trace w ++ EvAuthorize (pattern def) ctx params
                              :: reply "unauthorized")
  ∧ (∀ ctx e, ctxReady client = Ok ctx → auth ctx params = Throw e →
     hub w' = hub w
     ∧ trace w' = trace w ++ EvAuthorize (pattern def) ctx params
                              :: reply "authorization failed")
  ∧ (∀ e, ctxReady client = Throw e →
     hub w' = hub w ∧ trace w' = trace w ++ reply "authorization failed").
Proof.
  intros H1 H2%JsSet_has_false H3 H4. simpl.
  unfold handleSubscribe, matchChannel. rewrite H1, H2. mrun. rewrite H3, H4.
  split_and!.
  - intros ctx -> ->. simpl. send_cases; by rewrite <- ?app_assoc.
  - intros ctx e -> ->. simpl. send_cases; by rewrite <- ?app_assoc, ?app_nil_r.
  - intros e ->. simpl. send_cases; by rewrite ?app_nil_r.
Qed.

(** C5: when the matched definition has an authorization callback and
    the callback returns false, the connection is sent
    [err{channel, "unauthorized"}]; when the callback throws or rejects,
    or the request context cannot be produced, it is sent
    [err{channel, "authorization failed"}]. In each case the hub is left
    as it was, so the connection joins no subscriber set and keeps its
    channel set, and the message handler returns normally. (A reply to a
    socket whose [send] throws is not delivered.) *)
Theorem C5_denied_or_failed_authorization s cid client ch def params auth w :
  _wsToClient (hub w) !! ws_id s = Some cid → falsy cid = false →
  _clients (hub w) !! cid = Some client →
  falsy ch = false → ch ∉ channels client →
  firstMatch (_channels (hub w)) ch = Some (def, params) →
  authorize def = Some auth →
  let r := message s (Frame (Sub ch)) w in
  let reply reason :=
    if decide (ws_id (ws client) ∈ broken w) then []
    else [EvSend (ws_id (ws client)) (SubErr ch reason)] in
  r.1 = Ok ()
  ∧ "unauthorized" ≠ "authorization failed"
  ∧ (∀ ctx, ctxReady client = Ok ctx → auth ctx params = Ok false →
     hub r.2 = hub w
     ∧ subscribersOf (hub r.2) ch = subscribersOf (hub w) ch
     ∧ channelsOf (hub r.2) cid = channels client
     ∧ trace r.2 = trace w ++ EvAuthorize (pattern def) ctx params
                               :: reply "unauthorized")
  ∧ (∀ ctx e, ctxReady client = Ok ctx → auth ctx params = Throw e →
     hub r.2 = hub w
     ∧ subscribersOf (hub r.2) ch = subscribersOf (hub w) ch
     ∧ channelsOf (hub r.2) cid = channels client
     ∧ trace r.2 = trace w ++ EvAuthorize (pattern def) ctx params
                               :: reply "authorization failed")
  ∧ (∀ e, ctxReady client = Throw e →
     hub r.2 = hub w
     ∧ subscribersOf (hub r.2) ch = subscribersOf (hub w) ch
     ∧ channelsOf (hub r.2) cid = channels client
     ∧ trace r.2 = trace w ++ reply "authorization failed").
Proof.
  intros H1 H2 H3 H4 H5 H6 H7. simpl.
  rewrite (message_sub_run s ch cid client w H1 H2 H3). simpl.
  destruct (handleSubscribe_refused client ch def params auth w H4 H5 H6 H7)
    as (Hd & Hf & Hc).
  assert (channelsOf (hub w) cid = channels client) as Hch
    by (unfold channelsOf; by rewrite H3).
  split_and!; [done | done | | |].
  - intros ctx Hctx Ha. destruct (Hd ctx Hctx Ha) as [-> ->]. by rewrite Hch.
  - intros ctx e Hctx Ha. destruct (Hf ctx e Hctx Ha) as [-> ->]. by rewrite Hch.
  - intros e Hctx. destruct (Hc e Hctx) as [-> ->]. by rewrite Hch.
Qed.

Lemma C5_denied_or_failed_authorization_witness :
  (message ws_a (Frame (Sub "chats/7")) (run guarded_session init)).1 = Ok ()
  ∧ hub (message ws_a (Frame (Sub "chats/7")) (run guarded_session init)).2
    = hub (run guarded_session init)
  ∧ trace (message ws_a (Frame (Sub "chats/7")) (run guarded_session init)).2
    = trace (run guarded_session init)
      ++ [EvAuthorize "chats/:id"
            {| request := "/_broadcast"; ctx_clientId := None |}
            {[ "id" := Some "7" ]};
          EvSend 1 (SubErr "chats/7" "unauthorized")].
Proof.
  evar (client : ClientConnection). evar (def : ChannelDefinition).
  evar (params : Params).
  destruct (C5_denied_or_failed_authorization ws_a "a" client "chats/7" def
              params deny_all (run guarded_session init))
    as (Hr & _ & Hd & _ & _); subst client def params.
  - vm_compute. reflexivity.
  - vm_compute. reflexivity.
  - vm_compute. reflexivity.
  - vm_compute. reflexivity.
  - vm_compute. intros []%not_elem_of_nil.
  - vm_compute. reflexivity.
  - vm_compute. reflexivity.
  - destruct (Hd {| request := "/_broadcast"; ctx_clientId := None |})
      as (Hh & _ & _ & Ht); [reflexivity | reflexivity |].
    split_and!; [exact Hr | exact Hh |].
    rewrite Ht. vm_compute. reflexivity.
Defined.

Lemma with_trace_same w : with_trace (trace w) w = w.
Proof. by destruct w. Qed.

Lemma broadcast_loop_run (subs : list string) msg excl w :
  for_each subs (λ clientId,
    if decide (Some clientId = excl) then ret () else
    h <- get_hub ;;
    match _clients h !! clientId with
    | Some client => try_catch (ws_send (ws client) msg) (ret ())
    | None => ret ()
    end) w
  = (Ok (),
     with_trace
       (trace w ++ ((λ c, EvSend (ws_id (ws c)) msg) <$>
                    filter (λ c, ws_id (ws c) ∉ broken w)
                           (recipients (hub w) subs excl))) w).
Proof.
  revert w. induction subs as [|cid subs IH]; intros w; simpl.
  - unfold ret. by rewrite app_nil_r, with_trace_same.
  - unfold bind at 1. unfold recipients. simpl.
    case_decide; simpl; [apply IH |].
    mrun. destruct (_clients (hub w) !! cid) as [c|]; simpl; [| apply IH].
    rewrite ws_send_run. case_decide; simpl.
    + rewrite IH. by rewrite filter_cons_False by (intros Hn; by apply Hn).
    + rewrite IH. simpl. rewrite filter_cons_True by done. simpl.
      by rewrite <- app_assoc.
Qed.

Lemma broadcastToChannel_run ch ev d excl w :
  broadcastToChannel ch ev d excl w =
  match _subscribers (hub w) !! ch with
  | None => (Ok (), w)
  | Some subs =>
      (Ok (),
       with_trace
         (trace w ++ ((λ c, EvSend (ws_id (ws c)) (Msg ch ev d)) <$>
                      filter (λ c, ws_id (ws c) ∉ broken w)
                             (recipients (hub w) subs excl))) w)
  end.
Proof.
  transitivity
    (match _subscribers (hub w) !! ch with
     | None => (Ok (), w)
     | Some subs =>
         if Nat.eqb (JsSet.size subs) 0 then (Ok (), w) else
         for_each subs (λ clientId,
           if decide (Some clientId = excl) then ret () else
           h <- get_hub ;;
           match _clients h !! clientId with
           | Some client =>
               try_catch (ws_send (ws client) (Msg ch ev d)) (ret ())
           | None => ret ()
           end) w
     end).
  { unfold broadcastToChannel, bind at 1. simpl.
    destruct (_subscribers (hub w) !! ch) as [subs|]; [| done].
    by destruct (Nat.eqb (JsSet.size subs) 0). }
  destruct (_subscribers (hub w) !! ch) as [subs|]; [| done].
  destruct (Nat.eqb (JsSet.size subs) 0) eqn:Z; [| apply broadcast_loop_run].
  apply JsSet_size_zero in Z. subst. simpl. by rewrite app_nil_r, with_trace_same.
Qed.







(** A socket whose [send] throws is passed over; the next one is
    written. *)
Example broadcast_passes_over_broken_socket :
  let w := step (OpBreak {[2]}) (run chat_session init) in
  send (except "a" (to "chat/1")) "typing" "{}" w
  = (Ok (), with_trace (trace w ++ [EvSend 3 (Msg "chat/1" "typing" "{}")]) w).
Proof. vm_compute. reflexivity. Qed.

Lemma handleMessage_run client ch ev d w :
  handleMessage client ch ev d w =
  match dispatched client ch ev (hub w) with
  | None => (Ok (), w)
  | Some (def, params, handler) =>
      match ctxReady client with
      | Throw e => (Throw e, w)
      | Ok ctx =>
          let ctx' := {| request := request ctx;
                         ctx_clientId := Some (clientId client) |} in
          (handler ctx' params d,
           with_trace (trace w ++ [EvHandler (pattern def) ev ctx' params d])
             (with_hub (with_clients
                          (alter (with_ctxReady (Ok ctx')) (clientId client)
                                 (_clients (hub w))) (hub w)) w))
      end
  end.
Proof.
  unfold handleMessage, dispatched, matchChannel.
  destruct (falsy ch || falsy ev)%bool; [done |].
  destruct (negb _); [done |]. mrun.
  destruct (firstMatch _ ch) as [[def params]|]; [| done].
  destruct (property (messages def) ev) as [handler|]; [| done].
  by destruct (ctxReady client) as [ctx|e].
Qed.

(** C10: when the router dispatches a client message to a registered
    handler, the context the handler is called with has its [clientId]
    property set to the identifier of the connection whose socket the
    message came in on. The property is assigned on the connection's own
    context before the call, and that call is the only event of the
    message. *)
Theorem C10_handler_context_names_sender s cid client ch ev d w :
  hub_ok (hub w) →
  _wsToClient (hub w) !! ws_id s = Some cid → falsy cid = false →
  _clients (hub w) !! cid = Some client →
  let r := message s (Frame (ClientMsg ch ev d)) w in
  match dispatched client ch ev (hub w), ctxReady client with
  | Some (def, params, handler), Ok ctx =>
      let ctx' := {| request := request ctx; ctx_clientId := Some cid |} in
      trace r.2 = trace w ++ [EvHandler (pattern def) ev ctx' params d]
      ∧ ctx_clientId ctx' = Some cid
      ∧ (ctxReady <$> _clients (hub r.2) !! cid) = Some (Ok ctx')
      ∧ (handleMessage client ch ev d w).1 = handler ctx' params d
  | _, _ => r.2 = w
  end.
Proof.
  intros Hok H1 H2 H3. simpl.
  pose proof (ok_ids _ Hok _ _ H3) as Hid.
  unfold message. mrun. rewrite H1, H2, H3. rewrite handleMessage_run.
  destruct (dispatched client ch ev (hub w)) as [[[def params] handler]|]; [| done].
  destruct (ctxReady client) as [ctx|e]; [| done]. simpl. rewrite Hid.
  split_and!; try done.
  - by destruct (handler _ params d) as [[]|].
  - destruct (handler _ params d) as [[]|]; simpl;
      by rewrite lookup_alter_eq, H3.
Qed.

Lemma C10_handler_context_names_sender_witness :
  trace (message ws_b (Frame (ClientMsg "chat/1" "typing" "{}"))
           (run chat_session init)).2
  = trace (run chat_session init)
    ++ [EvHandler "chat/:id" "typing"
          {| request := "http://localhost"; ctx_clientId := Some "b" |}
          {[ "id" := Some "1" ]} "{}"].
Proof.
  assert (hub_ok (hub (run chat_session init))) as Hok.
  { apply run_ok; [apply init_ok | vm_compute; reflexivity]. }
  assert (_wsToClient (hub (run chat_session init)) !! ws_id ws_b = Some "b") as H1
    by (vm_compute; reflexivity).
  assert (falsy "b" = false) as H2 by (vm_compute; reflexivity).
  assert (_clients (hub (run chat_session init)) !! "b"
          = Some {| ws := ws_b; clientId := "b"; channels := ["chat/1"; "chats/7"];
                    ctxReady := Ok {| request := "http://localhost";
                                      ctx_clientId := None |} |}) as H3
    by (vm_compute; reflexivity).
  pose proof (C10_handler_context_names_sender ws_b "b" _
                "chat/1" "typing" "{}" (run chat_session init) Hok H1 H2 H3) as H.
  vm_compute in H. destruct H as (H & _). vm_compute. exact H.
Defined.

(** ** The hub: further properties of the protocol *)

Lemma subscriberCount_size h ch :
  subscriberCount h ch = JsSet.size (subscribersOf h ch).
Proof. unfold subscriberCount, subscribersOf. by destruct (_subscribers h !! ch). Qed.

Lemma JsSet_delete_twice (x : string) (l : list string) :
  JsSet.delete x (JsSet.delete x l) = JsSet.delete x l.
Proof.
  apply JsSet_delete_absent. intros [? _]%JsSet_elem_of_delete. done.
Qed.

Lemma index_without_all_entry cid chans m ch' :
  default [] (foldl (λ m ch, index_without cid ch m) m chans !! ch') =
  if decide (ch' ∈ chans) then JsSet.delete cid (default [] (m !! ch'))
  else default [] (m !! ch').
Proof.
  revert m. induction chans as [|ch chans IH]; intros m; cbn [foldl].
  - by rewrite decide_False by apply not_elem_of_nil.
  - rewrite IH, index_without_lookup.
    destruct (decide (ch' ∈ ch :: chans)) as [Hin|Hout],
             (decide (ch' ∈ chans)) as [Hin2|Hout2],
             (decide (ch' = ch)) as [->|Hne]; try done.
    + apply JsSet_delete_twice.
    + apply elem_of_cons in Hin as [?|?]; done.
    + exfalso. apply Hout. by apply list_elem_of_further.
    + exfalso. apply Hout. by apply list_elem_of_further.
    + exfalso. apply Hout. apply list_elem_of_here.
Qed.

(** A frame that is not JSON, or whose tag is unknown, is dropped without
    an effect, and no inbound frame makes the message handler throw. *)
Theorem malformed_frames_are_dropped (s : ServerWebSocket) (w : World) :
  message s Malformed w = (Ok (), w)
  ∧ message s Unknown w = (Ok (), w)
  ∧ message s (Frame Pong) w = (Ok (), w)
  ∧ ∀ raw, (message s raw w).1 = Ok ().
Proof.
  split_and!; [done | | | intros raw; apply message_never_throws];
    unfold message; mrun;
    destruct (_wsToClient (hub w) !! ws_id s) as [cid|]; try done;
    destruct (falsy cid); try done;
    by destruct (_clients (hub w) !! cid).
Qed.

(** An [unsub] from the only subscriber of a channel removes the channel
    from the index, takes it out of the connection's channel set, and
    sends no reply. *)
Theorem unsubscribe_of_last_subscriber_removes_entry s cid client ch w :
  _wsToClient (hub w) !! ws_id s = Some cid → falsy cid = false →
  _clients (hub w) !! cid = Some client → clientId client = cid →
  falsy ch = false → _subscribers (hub w) !! ch = Some [cid] →
  let r := message s (Frame (Unsub ch)) w in
  r.1 = Ok ()
  ∧ _subscribers (hub r.2) !! ch = None
  ∧ subscriberCount (hub r.2) ch = 0
  ∧ (ch ∉ channelsOf (hub r.2) cid)
  ∧ trace r.2 = trace w.
Proof.
  intros H1 H2 H3 H4 H5 H6. simpl. unfold message. mrun. rewrite H1, H2, H3.
  unfold handleUnsubscribe. rewrite H5. mrun. rewrite dropSubscriber_run. simpl.
  unfold subscriberCount, channelsOf, index_without. simpl. rewrite H4, H6.
  unfold JsSet.delete. rewrite filter_cons_False by (intros Hn; by apply Hn).
  simpl. rewrite lookup_delete_eq, lookup_alter_eq, H3. simpl.
  split_and!; try done.
  intros [? _]%list_elem_of_filter. done.
Qed.

Lemma unsubscribe_of_last_subscriber_removes_entry_witness :
  subscriberCount (hub (run chat_session init)) "chats/7" = 1
  ∧ _subscribers
      (hub (message ws_b (Frame (Unsub "chats/7")) (run chat_session init)).2)
      !! "chats/7" = None.
Proof.
  split; [vm_compute; reflexivity |].
  evar (client : ClientConnection).
  destruct (unsubscribe_of_last_subscriber_removes_entry ws_b "b" client
              "chats/7" (run chat_session init)) as (_ & Hn & _);
    subst client; [vm_compute; reflexivity .. | exact Hn].
Defined.

(** Closing a connection discards it and takes it out of the subscriber
    set of every channel it had: each of those counts goes down by
    exactly one, and the other entries stay as they were. *)
Theorem close_unwinds_every_channel s cid client w :
  hub_ok (hub w) →
  _wsToClient (hub w) !! ws_id s = Some cid → falsy cid = false →
  _clients (hub w) !! cid = Some client →
  let h' := hub (close s w).2 in
  (close s w).1 = Ok ()
  ∧ _clients h' !! cid = None
  ∧ (∀ ch, ch ∈ channels client →
       subscriberCount h' ch = (subscriberCount (hub w) ch - 1)%nat
       ∧ (1 ≤ subscriberCount (hub w) ch)%nat)
  ∧ (∀ ch, ch ∉ channels client → subscribersOf h' ch = subscribersOf (hub w) ch)
  ∧ (∀ ch, cid ∉ subscribersOf h' ch).
Proof.
  intros Hok H1 H2 H3. cbv zeta.
  assert (close s w = removeClient cid w) as ->.
  { unfold close. mrun. by rewrite H1, H2. }
  assert ((removeClient cid w).1 = Ok ()) as Hr.
  { unfold removeClient. mrun. rewrite H3. by rewrite dropSubscriber_loop. }
  rewrite removeClient_hub, H3.
  assert (∀ ch, subscribersOf (removed client cid (hub w)) ch =
                if decide (ch ∈ channels client)
                then JsSet.delete cid (subscribersOf (hub w) ch)
                else subscribersOf (hub w) ch) as Hsubs.
  { intros ch. unfold subscribersOf, removed. simpl. apply index_without_all_entry. }
  split_and!.
  - done.
  - unfold removed. simpl. apply lookup_delete_eq.
  - intros ch Hin. rewrite !subscriberCount_size, Hsubs, decide_True by done.
    assert (cid ∈ subscribersOf (hub w) ch) as Hmem.
    { apply (ok_index _ Hok). unfold channelsOf. by rewrite H3. }
    assert (NoDup (subscribersOf (hub w) ch)) as Hnd.
    { unfold subscribersOf. destruct (_subscribers (hub w) !! ch) eqn:E; simpl.
      - by apply (ok_nodup_subs _ Hok ch). - constructor. }
    split; [by apply JsSet_size_delete |].
    unfold JsSet.size. destruct (subscribersOf (hub w) ch);
      [by apply not_elem_of_nil in Hmem | simpl; lia].
  - intros ch Hout. by rewrite Hsubs, decide_False.
  - intros ch. rewrite Hsubs. case_decide as Hin.
    + intros [? _]%JsSet_elem_of_delete. done.
    + intros Hmem. apply Hin. apply (ok_index _ Hok) in Hmem.
      unfold channelsOf in Hmem. by rewrite H3 in Hmem.
Qed.

Lemma close_unwinds_every_channel_witness :
  subscriberCount (hub (run chat_session init)) "chat/1" = 3
  ∧ subscriberCount (hub (close ws_b (run chat_session init)).2) "chat/1" = 2
  ∧ subscriberCount (hub (close ws_b (run chat_session init)).2) "chats/7" = 0.
Proof.
  assert (hub_ok (hub (run chat_session init))) as Hok.
  { apply run_ok; [apply init_ok | vm_compute; reflexivity]. }
  evar (client : ClientConnection).
  destruct (close_unwinds_every_channel ws_b "b" client (run chat_session init) Hok)
    as (_ & _ & Hc & _); subst client; [vm_compute; reflexivity .. |].
  split_and!; [vm_compute; reflexivity | |].
  - destruct (Hc "chat/1") as [-> _]; [vm_compute; by left | vm_compute; reflexivity].
  - destruct (Hc "chats/7") as [-> _];
      [vm_compute; by right; left | vm_compute; reflexivity].
Defined.

(** ** The hub: sockets that come and go *)

Lemma close_run s w :
  close s w =
  match _wsToClient (hub w) !! ws_id s with
  | Some cid => if falsy cid then (Ok (), w) else removeClient cid w
  | None => (Ok (), w)
  end.
Proof.
  unfold close. mrun. destruct (_wsToClient (hub w) !! ws_id s) as [cid|]; [| done].
  by destruct (falsy cid).
Qed.

Lemma removeClient_run cid w :
  removeClient cid w =
  (Ok (), match _clients (hub w) !! cid with
          | Some client => with_hub (removed client cid (hub w)) w
          | None => w
          end).
Proof.
  unfold removeClient, removed. mrun.
  destruct (_clients (hub w) !! cid) as [c|]; [| done].
  by rewrite dropSubscriber_loop.
Qed.

Lemma message_without_connection s raw w :
  match _wsToClient (hub w) !! ws_id s with
  | Some cid => falsy cid = true ∨ _clients (hub w) !! cid = None
  | None => True
  end →
  message s raw w = (Ok (), w).
Proof.
  intros H. unfold message. mrun. destruct raw as [| |f]; simpl; [done | |];
    destruct (_wsToClient (hub w) !! ws_id s) as [cid|]; try done;
    destruct H as [-> | ->]; try done; by destruct (falsy cid).
Qed.

(** Once a socket has been closed, a second [close] and every later
    frame from it do nothing: the socket still maps to its identifier,
    but the connection is gone. *)
Theorem closed_socket_is_ignored (s : ServerWebSocket) (raw : RawMessage) (w : World) :
  (close s w).1 = Ok ()
  ∧ close s (close s w).2 = (Ok (), (close s w).2)
  ∧ message s raw (close s w).2 = (Ok (), (close s w).2).
Proof.
  assert (match _wsToClient (hub (close s w).2) !! ws_id s with
          | Some cid => falsy cid = true ∨ _clients (hub (close s w).2) !! cid = None
          | None => True
          end ∧ (close s w).1 = Ok ()) as [Hgone Hr].
  { rewrite close_run. destruct (_wsToClient (hub w) !! ws_id s) as [cid|] eqn:E.
    - destruct (falsy cid) eqn:F; simpl.
      + rewrite E. auto.
      + rewrite removeClient_run. simpl.
        destruct (_clients (hub w) !! cid) as [c|] eqn:C; simpl; rewrite E.
        * split; [right; apply lookup_delete_eq | done].
        * auto.
    - simpl. by rewrite E. }
  split_and!; [done | | by apply message_without_connection].
  rewrite (close_run s (close s w).2).
  destruct (_wsToClient (hub (close s w).2) !! ws_id s) as [cid|]; [| done].
  destruct Hgone as [-> | Hc]; [done |].
  destruct (falsy cid); [done |]. by rewrite removeClient_run, Hc.
Qed.

(** [open(ws)] stores a connection with no channels under the new
    identifier, maps the socket to it and writes the [welcome] frame;
    when the [send] throws the connection is stored all the same. A
    [close] right after it takes the connection out again. *)
Theorem open_registers_connection (s : ServerWebSocket) (uuid : string) (w : World) :
  _clients (hub w) !! uuid = None →
  let r := open s uuid w in
  clientCount (hub r.2) = S (clientCount (hub w))
  ∧ channelsOf (hub r.2) uuid = []
  ∧ _wsToClient (hub r.2) !! ws_id s = Some uuid
  ∧ _subscribers (hub r.2) = _subscribers (hub w)
  ∧ trace r.2 = trace w ++ (if decide (ws_id s ∈ broken w) then []
                            else [EvSend (ws_id s) (Welcome uuid)])
  ∧ (falsy uuid = false →
       _clients (hub (close s r.2).2) = _clients (hub w)
       ∧ _subscribers (hub (close s r.2).2) = _subscribers (hub w)).
Proof.
  intros Hfresh. cbv zeta.
  assert (open s uuid w =
          ws_send s (Welcome uuid)
            (with_hub (with_clients
               (<[uuid := {| ws := s; clientId := uuid; channels := [];
                             ctxReady := buildContext s
                               (with_wsToClient (<[ws_id s := uuid]> (_wsToClient (hub w)))
                                                (hub w)) |}]> (_clients (hub w)))
               (with_wsToClient (<[ws_id s := uuid]> (_wsToClient (hub w))) (hub w))) w))
    as -> by done.
  rewrite ws_send_run. simpl.
  split_and!.
  - case_decide; simpl; unfold clientCount; simpl; by apply map_size_insert_None.
  - case_decide; simpl; unfold channelsOf; simpl; by rewrite lookup_insert_eq.
  - case_decide; simpl; by rewrite lookup_insert_eq.
  - by case_decide.
  - case_decide; simpl; by rewrite ?app_nil_r.
  - intros Hne. rewrite close_run.
    case_decide; simpl; rewrite lookup_insert_eq, Hne, removeClient_run; simpl;
      rewrite lookup_insert_eq; simpl; by rewrite delete_insert_id.
Qed.

Lemma open_registers_connection_witness :
  clientCount (hub (open {| ws_id := 9; ws_request := None |} "z"
                      (run chat_session init)).2) = 4.
Proof.
  destruct (open_registers_connection {| ws_id := 9; ws_request := None |} "z"
              (run chat_session init)) as (Hc & _).
  - vm_compute. reflexivity.
  - rewrite Hc. vm_compute. reflexivity.
Defined.

(** ** The hub: the subscribe flow, case by case *)












(** ** The hub: client messages, teardown, counts *)

Lemma property_None handlers ev :
  property handlers ev = None
  ↔ handlers = None
    ∨ ∃ hs, handlers = Some hs ∧ hs !! ev = None ∧ inherited ev = None.
Proof.
  unfold property. destruct handlers as [hs|]; simpl.
  - destruct (hs !! ev) as [h|] eqn:E.
    + split; [done |]. intros [? | (hs' & [= <-] & ? & _)]; congruence.
    + split; [intros H; right; by exists hs | ].
      intros [? | (hs' & _ & _ & ?)]; done.
  - split; [by left | done].
Qed.

(** A client message is dropped without a trace unless the connection
    holds the channel, the channel and event names are not empty, a
    definition matches and its handlers have a property of the event's
    name: a handler of their own, or one of the functions an object
    inherits ([toString], [constructor] and the like, which a client can
    name as the event). When it is dropped no handler runs, nothing is
    written, the hub stays as it was. *)
Theorem undispatched_message_has_no_effect s cid client ch ev d w :
  _wsToClient (hub w) !! ws_id s = Some cid → falsy cid = false →
  _clients (hub w) !! cid = Some client →
  (ch ∉ channels client ∨ ch = "" ∨ ev = ""
   ∨ firstMatch (_channels (hub w)) ch = None
   ∨ ∃ def params,
       firstMatch (_channels (hub w)) ch = Some (def, params)
       ∧ (messages def = None
          ∨ ∃ hs, messages def = Some hs ∧ hs !! ev = None
                  ∧ inherited ev = None)) →
  message s (Frame (ClientMsg ch ev d)) w = (Ok (), w)
  ∧ (∀ e, is_Some (inherited e)
          ↔ e ∈ ["constructor"; "hasOwnProperty"; "isPrototypeOf";
                 "propertyIsEnumerable"; "toLocaleString"; "toString";
                 "valueOf"; "__lookupGetter__"; "__lookupSetter__";
                 "__defineGetter__"; "__defineSetter__"; "__proto__"]).
Proof.
  intros H1 H2 H3 Hcase. split.
  - unfold message. mrun. rewrite H1, H2, H3.
    rewrite handleMessage_run.
    assert (dispatched client ch ev (hub w) = None) as ->; [| done].
    unfold dispatched, falsy.
    destruct Hcase as [Hc | [-> | [-> | [Hm | (def & params & Hm & Hh)]]]].
    + apply JsSet_has_false in Hc. rewrite Hc. simpl.
      by destruct (bool_decide (ch = "") || bool_decide (ev = ""))%bool.
    + done.
    + by rewrite orb_true_r.
    + rewrite Hm. by repeat case_match.
    + apply property_None in Hh. rewrite Hm, Hh. by repeat case_match.
  - intros e. unfold inherited.
    change ["constructor"; "hasOwnProperty"; "isPrototypeOf";
            "propertyIsEnumerable"; "toLocaleString"; "toString";
            "valueOf"; "__lookupGetter__"; "__lookupSetter__";
            "__defineGetter__"; "__defineSetter__"; "__proto__"]
      with (["constructor"; "hasOwnProperty"; "isPrototypeOf";
             "propertyIsEnumerable"; "toLocaleString"; "toString";
             "valueOf"; "__lookupGetter__"; "__lookupSetter__"]
            ++ ["__defineGetter__"; "__defineSetter__"; "__proto__"]).
    rewrite elem_of_app.
    destruct (decide (e ∈ ["__defineGetter__"; "__defineSetter__"; "__proto__"]))
      as [Hin|Hout]; [split; [by right | by eauto] |].
    destruct (decide (e ∈ ["constructor"; "hasOwnProperty"; "isPrototypeOf";
                           "propertyIsEnumerable"; "toLocaleString"; "toString";
                           "valueOf"; "__lookupGetter__"; "__lookupSetter__"]))
      as [Hin|Hout2]; [split; [by left | by eauto] |].
    split; [by intros [? ?] | by intros [?|?]].
Qed.

Lemma undispatched_message_has_no_effect_witness :
  message ws_a (Frame (ClientMsg "chats/7" "typing" "{}")) (run chat_session init)
  = (Ok (), run chat_session init).
Proof.
  evar (client : ClientConnection).
  destruct (undispatched_message_has_no_effect ws_a "a" client "chats/7"
              "typing" "{}" (run chat_session init)) as [H _]; subst client.
  - vm_compute. reflexivity.
  - vm_compute. reflexivity.
  - vm_compute. reflexivity.
  - left. vm_compute. intros H.
    repeat (apply elem_of_cons in H as [H|H]; [discriminate |]).
    by apply not_elem_of_nil in H.
  - exact H.
Defined.

(** After [reset] (which [BroadcastProvider.shutdown] calls) the hub has
    no connection, no subscriber and no channel definition: every name
    resolves to no match, and frames, closes and broadcasts do nothing,
    also for the sockets opened before the reset. The keepalive timer is
    cleared and the middleware list emptied. The trace is not touched. *)
Theorem reset_forgets_everything (w : World) :
  let w' := (reset w).2 in
  (reset w).1 = Ok ()
  ∧ trace w' = trace w
  ∧ hub_ok (hub w')
  ∧ clientCount (hub w') = 0
  ∧ (∀ ch, subscriberCount (hub w') ch = 0)
  ∧ (∀ n, matchChannel n w' = (Ok None, w'))
  ∧ (∀ s raw, message s raw w' = (Ok (), w'))
  ∧ (∀ s, close s w' = (Ok (), w'))
  ∧ (∀ p ev d, send p ev d w' = (Ok (), w'))
  ∧ _pingTimer (hub w') = None
  ∧ _middleware (hub w') = [].
Proof.
  cbv zeta. unfold reset. mrun. split_and!; try done.
  - split; simpl; try (intros ? ? H; by rewrite lookup_empty in H).
    intros ch cid. unfold subscribersOf, channelsOf. simpl.
    rewrite !lookup_empty. simpl. split; intros []%not_elem_of_nil.
  - intros s raw. apply message_without_connection. simpl.
    destruct (_wsToClient (hub w) !! ws_id s); [right; apply lookup_empty | done].
  - intros s. rewrite close_run. simpl.
    destruct (_wsToClient (hub w) !! ws_id s) as [cid|]; [| done].
    destruct (falsy cid); [done |]. rewrite removeClient_run. simpl.
    by rewrite lookup_empty.
Qed.

(** Along a run whose handlers each complete before the next event, every
    subscriber of a channel is a stored connection, so a channel never has
    more subscribers than the hub has connections. *)
Theorem subscribers_are_connections (ops : list Op) (ch : string) :
  plausible_run ops init = true →
  (∀ cid, cid ∈ subscribersOf (hub (run ops init)) ch →
          is_Some (_clients (hub (run ops init)) !! cid))
  ∧ (subscriberCount (hub (run ops init)) ch ≤ clientCount (hub (run ops init)))%nat.
Proof.
  intros Hp. pose proof (run_ok ops init init_ok Hp) as Hok.
  assert (∀ cid, cid ∈ subscribersOf (hub (run ops init)) ch →
                 is_Some (_clients (hub (run ops init)) !! cid)) as Hlive.
  { intros cid Hin%(ok_index _ Hok). unfold channelsOf in Hin.
    destruct (_clients (hub (run ops init)) !! cid); [eauto |].
    by apply not_elem_of_nil in Hin. }
  split; [done |].
  rewrite subscriberCount_size. unfold clientCount, JsSet.size.
  rewrite <- length_map_to_list, <- (length_fmap fst).
  apply submseteq_length, NoDup_submseteq.
  - unfold subscribersOf.
    destruct (_subscribers (hub (run ops init)) !! ch) eqn:E; simpl;
      [by apply (ok_nodup_subs _ Hok ch) | constructor].
  - intros cid [c Hc]%Hlive. apply list_elem_of_fmap. exists (cid, c).
    split; [done |]. by apply elem_of_map_to_list.
Qed.

Lemma subscribers_are_connections_witness :
  (subscriberCount (hub (run chat_session init)) "chat/1"
   ≤ clientCount (hub (run chat_session init)))%nat.
Proof.
  apply (subscribers_are_connections chat_session "chat/1").
  vm_compute. reflexivity.
Defined.

(** ** The hub: more edge cases *)

Lemma parted_unheld client ch h :
  hub_ok h → _clients h !! clientId client = Some client →
  ch ∉ channels client → parted client ch h = h.
Proof.
  intros Hok Hc Hch. unfold parted.
  assert (clientId client ∉ subscribersOf h ch) as Hnew.
  { intros Hin%(ok_index _ Hok). unfold channelsOf in Hin. by rewrite Hc in Hin. }
  pose proof (ok_nonempty _ Hok ch) as Hne.
  destruct h as [chs cl su wt mw pt]. unfold subscribersOf in Hnew. simpl in *.
  unfold with_subscribers, with_clients. simpl. f_equal.
  - apply alter_id. intros x Hx. rewrite Hc in Hx. injection Hx as <-.
    destruct client as [ws0 id0 ch0 ctx0]. simpl in *.
    unfold with_client_channels. simpl. f_equal. by apply JsSet_delete_absent.
  - unfold index_without. destruct (su !! ch) as [s0|] eqn:E; [| done].
    simpl in Hnew. cbv zeta. rewrite JsSet_delete_absent by done.
    destruct (Nat.eqb (JsSet.size s0) 0) eqn:Z.
    + apply JsSet_size_zero in Z. by destruct (Hne s0).
    + by apply insert_id.
Qed.

(** An [unsub] for a channel the connection does not hold changes
    nothing: the other subscribers of the channel stay, no entry is
    deleted, nothing is written. *)
Theorem unsubscribe_of_unheld_channel_changes_nothing s cid client ch w :
  hub_ok (hub w) →
  _wsToClient (hub w) !! ws_id s = Some cid → falsy cid = false →
  _clients (hub w) !! cid = Some client →
  ch ∉ channels client →
  message s (Frame (Unsub ch)) w = (Ok (), w).
Proof.
  intros Hok H1 H2 H3 Hch.
  pose proof (ok_ids _ Hok _ _ H3) as Hid.
  unfold message. mrun. rewrite H1, H2, H3. unfold handleUnsubscribe.
  destruct (falsy ch); [done |]. mrun. rewrite dropSubscriber_run. simpl.
  change (with_subscribers _ _) with (parted client ch (hub w)).
  rewrite parted_unheld; [by destruct w | done | by rewrite Hid | done].
Qed.

Lemma unsubscribe_of_unheld_channel_changes_nothing_witness :
  message ws_a (Frame (Unsub "chats/7")) (run chat_session init)
  = (Ok (), run chat_session init).
Proof.
  evar (client : ClientConnection).
  apply (unsubscribe_of_unheld_channel_changes_nothing ws_a "a" client);
    subst client.
  - apply run_ok; [apply init_ok | vm_compute; reflexivity].
  - vm_compute. reflexivity.
  - vm_compute. reflexivity.
  - vm_compute. reflexivity.
  - vm_compute. intros H. repeat (apply elem_of_cons in H as [H|H]; [discriminate |]).
    by apply not_elem_of_nil in H.
Defined.

(** [except] keeps one excluded connection only: in
    [to(ch).except(a).except(b).send(...)] the second call replaces the
    first, so the broadcast is the one of [to(ch).except(b)], and [a],
    when it subscribes to the channel, is written to. *)
Theorem second_except_replaces_the_first ch a b ev d ca w :
  a ≠ b → a ∈ subscribersOf (hub w) ch →
  _clients (hub w) !! a = Some ca → ws_id (ws ca) ∉ broken w →
  let r := send (except b (except a (to ch))) ev d w in
  r = send (except b (to ch)) ev d w
  ∧ ∃ written, trace r.2 = trace w ++ written
               ∧ EvSend (ws_id (ws ca)) (Msg ch ev d) ∈ written.
Proof.
  intros Hab Hin Hca Hok. cbv zeta. split; [done |].
  unfold send, except, to. simpl. rewrite broadcastToChannel_run.
  unfold subscribersOf in Hin.
  destruct (_subscribers (hub w) !! ch) as [subs|]; simpl in *;
    [| by apply not_elem_of_nil in Hin].
  eexists. split; [done |].
  apply list_elem_of_fmap. exists ca. split; [done |].
  apply list_elem_of_filter. split; [done |].
  apply list_elem_of_omap. exists a. split; [done |].
  rewrite decide_False; [done | congruence].
Qed.

Lemma second_except_replaces_the_first_witness :
  ∃ written,
    trace (send (except "b" (except "a" (to "chat/1"))) "typing" "..."
             (run chat_session init)).2
    = trace (run chat_session init) ++ written
    ∧ EvSend 1 (Msg "chat/1" "typing" "...") ∈ written.
Proof.
  evar (ca : ClientConnection).
  destruct (second_except_replaces_the_first "chat/1" "a" "b" "typing" "..." ca
              (run chat_session init)) as (_ & written & Ht & Hin); subst ca.
  - discriminate.
  - vm_compute. apply list_elem_of_here.
  - vm_compute. reflexivity.
  - vm_compute. discriminate.
  - exists written. split; [exact Ht | exact Hin].
Defined.

End HubFacts.

(** ** The pattern matcher *)

Module PatternFacts.
Import Pattern.

(** The examples of the specification. *)
Example chats_id_matches :
  (p ← parsePattern "chats/:id";
   m ← exec (regex p) "chats/42";
   Some (extractParams (paramNames p) m))
  = Some {[ "id" := Some "42" ]}.
Proof. vm_compute. reflexivity. Qed.

Example chats_id_rejects_longer_name :
  (p ← parsePattern "chats/:id"; exec (regex p) "chats/42/messages") = None.
Proof. vm_compute. reflexivity. Qed.

Example files_path_matches :
  (p ← parsePattern "files/*path";
   m ← exec (regex p) "files/a/b/c";
   Some (extractParams (paramNames p) m))
  = Some {[ "path" := Some "a/b/c" ]}.
Proof. vm_compute. reflexivity. Qed.

(** C2 (the code departs from it): for a pattern with a named parameter
    before the wildcard, [parsePattern] pushes the wildcard's name first
    although its group comes last, so [extractParams] binds the wildcard
    name to the segment and the parameter name to the remainder. *)
Theorem C2_wildcard_and_parameter_are_swapped :
  regexStr "files/:id/*path" = "files/([^/]+)/(.+)"
  ∧ pushedNames "files/:id/*path" = ["path"; "id"]
  ∧ ∃ p, parsePattern "files/:id/*path" = Some p
         ∧ exec (regex p) "files/7/a/b" = Some ["files/7/a/b"; "7"; "a/b"]
         ∧ extractParams (paramNames p) ["files/7/a/b"; "7"; "a/b"]
           = {[ "path" := Some "7"; "id" := Some "a/b" ]}
         ∧ extractParams (paramNames p) ["files/7/a/b"; "7"; "a/b"]
           ≠ {[ "id" := Some "7"; "path" := Some "a/b" ]}.
Proof.
  split_and!; [vm_compute; reflexivity | vm_compute; reflexivity |].
  destruct (parsePattern "files/:id/*path") as [p|] eqn:E; [| by vm_compute in E].
  exists p. vm_compute in E. injection E as <-.
  split_and!; [done | vm_compute; reflexivity | vm_compute; reflexivity |].
  intros H. apply (f_equal (λ m : Params, m !! "id")) in H.
  vm_compute in H. discriminate.
Qed.

(** ** The matcher accepts exactly the names that fit the expression *)

Lemma first_some_Some {A B} (f : A → option B) (l : list A) y :
  first_some f l = Some y → ∃ x, x ∈ l ∧ f x = Some y.
Proof.
  induction l as [|x l IH]; simpl; [done |].
  destruct (f x) as [y'|] eqn:E.
  - intros [= <-]. exists x. split; [apply list_elem_of_here | done].
  - intros (x' & Hin & Hx')%IH. exists x'. split; [by apply list_elem_of_further | done].
Qed.

Lemma first_some_is_Some {A B} (f : A → option B) (l : list A) x :
  x ∈ l → is_Some (f x) → is_Some (first_some f l).
Proof.
  induction l as [|x' l IH]; simpl; [by intros ?%not_elem_of_nil |].
  intros [->|Hin]%elem_of_cons Hx.
  - destruct Hx as [y ->]. eauto.
  - destruct (f x'); [eauto | by apply IH].
Qed.

Lemma elem_of_rev {A} (l : list A) x : x ∈ rev l ↔ x ∈ l.
Proof. rewrite !list_elem_of_In. symmetry. apply in_rev. Qed.

Lemma append_cons c (s t : string) : String c s +:+ t = String c (s +:+ t).
Proof. reflexivity. Qed.

Lemma append_nil_l (t : string) : "" +:+ t = t.
Proof. reflexivity. Qed.

Lemma append_nil_r (s : string) : s +:+ "" = s.
Proof. induction s as [|c s IH]; [done |]. by rewrite append_cons, IH. Qed.

Lemma append_assoc (s t u : string) : (s +:+ t) +:+ u = s +:+ (t +:+ u).
Proof. induction s as [|c s IH]; [done |]. by rewrite !append_cons, IH. Qed.

Lemma splits_sound cls s p q :
  (p, q) ∈ splits cls s → s = p +:+ q ∧ capture_ok cls p = true.
Proof.
  revert p q. induction s as [|c s IH]; intros p q; simpl.
  - by intros ?%not_elem_of_nil.
  - destruct (in_class cls c) eqn:Hc; [| by intros ?%not_elem_of_nil].
    intros [[= -> ->]|Hin]%elem_of_cons.
    + split; [done |]. simpl. by rewrite Hc.
    + apply list_elem_of_fmap in Hin as ([p0 q0] & [= -> ->] & Hin).
      destruct (IH _ _ Hin) as [-> Hok]. split; [done |].
      simpl. rewrite Hc. simpl. by destruct p0.
Qed.

Lemma splits_complete cls p q :
  capture_ok cls p = true → (p, q) ∈ splits cls (p +:+ q).
Proof.
  induction p as [|c p IH]; [done |]. simpl. intros Hok.
  apply andb_prop in Hok as [Hc Hall]. rewrite Hc.
  destruct p as [|c' p'].
  - apply list_elem_of_here.
  - apply list_elem_of_further. apply list_elem_of_fmap.
    exists (String c' p', q). split; [done |]. by apply IH.
Qed.

Lemma match_nodes_sound r s groups :
  match_nodes r s = Some groups → rebuild r groups = Some s.
Proof.
  revert s groups. induction r as [|[c|cls] r IH]; intros s groups; simpl.
  - case_decide; [| done]. intros [= <-]. by subst.
  - destruct s as [|c' s']; [done |].
    destruct (Ascii.eqb c c') eqn:E; [| done]. apply Ascii.eqb_eq in E as <-.
    intros H%IH. by rewrite H.
  - intros ([p q] & Hin & Hf)%first_some_Some.
    apply elem_of_rev, splits_sound in Hin as [-> Hok]. simpl in Hf.
    destruct (match_nodes r q) as [gs|] eqn:Hm; [| done].
    injection Hf as <-. rewrite Hok, (IH _ _ Hm). done.
Qed.

Lemma match_nodes_complete r s groups :
  rebuild r groups = Some s → is_Some (match_nodes r s).
Proof.
  revert s groups. induction r as [|[c|cls] r IH]; intros s groups; simpl.
  - destruct groups; [| done]. intros [= <-]. by rewrite decide_True.
  - destruct (rebuild r groups) as [t|] eqn:Hr; [| done].
    intros [= <-]. rewrite Ascii.eqb_refl. by apply (IH _ groups).
  - destruct groups as [|g gs]; [done |].
    destruct (capture_ok cls g) eqn:Hok; [| done].
    destruct (rebuild r gs) as [t|] eqn:Hr; [| done]. intros [= <-].
    apply (first_some_is_Some _ _ (g, t)).
    + apply elem_of_rev. by apply splits_complete.
    + simpl. destruct (IH _ _ Hr) as [gs' ->]. by eexists.
Qed.

(** The matcher is sound and complete: the groups it returns spell the
    name it was given, each capture being non-empty and inside its
    class (a [:name] capture has no ["/"]); and every name that the
    expression can spell with such captures is accepted. *)
Theorem matcher_accepts_exactly_what_fits (r : RegExp) (s : string) :
  (∀ groups, match_nodes r s = Some groups → rebuild r groups = Some s)
  ∧ (∀ groups, rebuild r groups = Some s → is_Some (match_nodes r s)).
Proof.
  split; intros groups; [apply match_nodes_sound | apply match_nodes_complete].
Qed.

(** ** Parameters are bound by position *)

Lemma extract_loop_other (names : list string) (m : list (option string))
    n k len (acc : Params) :
  (n = "__proto__" ∨ ∀ j, (k ≤ j < k + len)%nat → names !! j ≠ Some n) →
  foldl (λ (params : Params) i,
           match names !! i with
           | Some n =>
               if decide (n = "__proto__") then params
               else <[n := mjoin (m !! (i + 1)%nat)]> params
           | None => params
           end) acc (seq k len) !! n = acc !! n.
Proof.
  revert k acc. induction len as [|len IH]; intros k acc H; [done |].
  simpl. rewrite IH; [| destruct H as [->|H]; [by left | right; intros j Hj; apply H; lia]].
  destruct (names !! k) as [n'|] eqn:E; [| done].
  case_decide as Hp; [done |].
  rewrite lookup_insert_ne; [done |]. intros ->.
  destruct H as [->|H]; [done |]. apply (H k); [lia | done].
Qed.

Lemma extract_loop_at (names : list string) (m : list (option string))
    n i k len (acc : Params) :
  names !! i = Some n → n ≠ "__proto__" → (k ≤ i < k + len)%nat →
  (∀ j, (i < j)%nat → names !! j ≠ Some n) →
  foldl (λ (params : Params) i,
           match names !! i with
           | Some n =>
               if decide (n = "__proto__") then params
               else <[n := mjoin (m !! (i + 1)%nat)]> params
           | None => params
           end) acc (seq k len) !! n = Some (mjoin (m !! (i + 1)%nat)).
Proof.
  intros Hi Hp Hk Hlast. revert k acc Hk.
  induction len as [|len IH]; intros k acc Hk; [lia |].
  simpl. destruct (decide (i = k)) as [->|Hne].
  - rewrite Hi, decide_False by done.
    rewrite extract_loop_other; [by rewrite lookup_insert_eq |].
    right. intros j Hj. apply Hlast. lia.
  - apply IH. lia.
Qed.

Lemma extractParamsOf_lookup (names : list string) (m : list (option string)) i n :
  names !! i = Some n → n ≠ "__proto__" →
  (∀ j, (i < j)%nat → names !! j ≠ Some n) →
  Pattern.extractParamsOf names m !! n = Some (mjoin (m !! (i + 1)%nat)).
Proof.
  intros Hi Hp Hlast. apply extract_loop_at; [done | done | | done].
  apply lookup_lt_Some in Hi. lia.
Qed.

Lemma extractParamsOf_proto (names : list string) (m : list (option string)) :
  Pattern.extractParamsOf names m !! "__proto__" = None.
Proof. unfold extractParamsOf. rewrite extract_loop_other; [done | by left]. Qed.

(** [extractParams] binds a name to the group at the position of its last
    occurrence among the names ([undefined] when the match array has no
    such group, or the group took no part in the match), binds no name
    that is not listed, and never binds the name [__proto__]. *)
Theorem extractParams_binds_by_position (names : list string)
    (m : list (option string)) i n :
  names !! i = Some n → n ≠ "__proto__" →
  (∀ j, (i < j)%nat → names !! j ≠ Some n) →
  extractParamsOf names m !! n = Some (mjoin (m !! (i + 1)%nat))
  ∧ (∀ n', n' ∉ names → extractParamsOf names m !! n' = None)
  ∧ extractParamsOf names m !! "__proto__" = None
  ∧ ∀ strings : list string,
      extractParams names strings = extractParamsOf names (Some <$> strings).
Proof.
  intros Hi Hp Hlast. split_and!.
  - by apply extractParamsOf_lookup.
  - intros n' Hn'. unfold extractParamsOf. rewrite extract_loop_other; [done |].
    right. intros j _ Hj. apply Hn'. by eapply list_elem_of_lookup_2.
  - apply extractParamsOf_proto.
  - done.
Qed.

Lemma extractParams_binds_by_position_witness :
  extractParamsOf ["chat"; "__proto__"; "user"]
    [Some "rooms/7/x/ann"; Some "7"; Some "x"; Some "ann"] !! "chat"
    = Some (Some "7")
  ∧ extractParamsOf ["chat"; "__proto__"; "user"]
      [Some "rooms/7/x/ann"; Some "7"; Some "x"; Some "ann"] !! "__proto__"
    = None.
Proof.
  destruct (extractParams_binds_by_position ["chat"; "__proto__"; "user"]
              [Some "rooms/7/x/ann"; Some "7"; Some "x"; Some "ann"] 0 "chat")
    as (H1 & _ & H3 & _).
  - reflexivity.
  - discriminate.
  - intros [|[|[|j]]] Hj; [lia | discriminate | discriminate | discriminate].
  - split; [exact H1 | exact H3].
Defined.

(** ** Patterns written from literal text and parameters *)

Ltac unapp := repeat (rewrite append_nil_l || rewrite append_cons).

#[local] Arguments Ascii.eqb : simpl never.
#[local] Arguments is_word : simpl never.
#[local] Arguments is_meta : simpl never.

Lemma occurs_in_app c (s t : string) :
  occurs_in c (s +:+ t) = occurs_in c s || occurs_in c t.
Proof.
  induction s as [|c' s IH]; [done |]. simpl. by rewrite IH, orb_assoc.
Qed.

Lemma plain_no_star t : plain t = true → occurs_in "*" t = false.
Proof.
  induction t as [|c t IH]; [done |]. simpl.
  intros [[Hm _]%andb_prop Ht]%andb_prop. rewrite (IH Ht), orb_false_r.
  destruct (Ascii.eqb_spec "*" c) as [<-|]; [by vm_compute in Hm | done].
Qed.

Lemma all_word_no_star n : all_word n = true → occurs_in "*" n = false.
Proof.
  induction n as [|c n IH]; [done |]. simpl.
  intros [Hc Hn]%andb_prop. rewrite (IH Hn), orb_false_r.
  destruct (Ascii.eqb_spec "*" c) as [<-|]; [by vm_compute in Hc | done].
Qed.

Lemma spell_no_star segs :
  well_formed segs = true → occurs_in "*" (spell segs) = false.
Proof.
  induction segs as [|[t|n] segs IH]; [done | |]; cbn [well_formed spell].
  - intros [Ht Hs]%andb_prop.
    by rewrite occurs_in_app, (plain_no_star _ Ht), (IH Hs).
  - intros [[[_ Hn]%andb_prop _]%andb_prop Hs]%andb_prop.
    by rewrite !occurs_in_app, (all_word_no_star _ Hn), (IH Hs).
Qed.

Lemma replace_wildcard_none s :
  occurs_in "*" s = false → replace_wildcard s = (s, []).
Proof.
  induction s as [|c s IH]; [done |]. intros H.
  destruct s as [|c2 rest]; [done |].
  change (occurs_in "*" (String c (String c2 rest)))
    with (Ascii.eqb "*" c || occurs_in "*" (String c2 rest)) in H.
  apply orb_false_elim in H as [_ H].
  change (replace_wildcard (String c (String c2 rest)))
    with (if (Ascii.eqb c "/" && Ascii.eqb c2 "*" && starts_with_word rest)%bool
          then ("/(.+)" +:+ drop_word rest, [take_word rest])
          else let '(out, names) := replace_wildcard (String c2 rest) in
               (String c out, names)).
  rewrite (IH H).
  simpl in H. apply orb_false_elim in H as [H _].
  by rewrite (Ascii.eqb_sym c2), H, andb_false_r.
Qed.

Lemma replace_params_plain t rest :
  plain t = true →
  replace_params false (t +:+ rest)
  = (t +:+ (replace_params false rest).1, (replace_params false rest).2).
Proof.
  induction t as [|c t IH]; unapp; simpl.
  - intros _. by destruct (replace_params false rest).
  - intros [[_ Hc]%andb_prop Ht]%andb_prop.
    apply negb_true_iff in Hc. by rewrite Hc, (IH Ht).
Qed.

Lemma replace_params_boundary s :
  starts_with_word s = false → replace_params true s = replace_params false s.
Proof. destruct s as [|c s]; [done |]. simpl. by intros ->. Qed.

Lemma replace_params_skip n rest :
  all_word n = true → starts_with_word rest = false →
  replace_params true (n +:+ rest) = replace_params false rest.
Proof.
  intros Hn Hrest. induction n as [|c n IH]; unapp; simpl.
  - by apply replace_params_boundary.
  - simpl in Hn. apply andb_prop in Hn as [Hc Hn]. rewrite Hc. by apply IH.
Qed.

Lemma take_word_name n rest :
  all_word n = true → starts_with_word rest = false →
  take_word (n +:+ rest) = n.
Proof.
  intros Hn Hrest. induction n as [|c n IH]; unapp; simpl.
  - destruct rest as [|c r]; [done |]. simpl in *. by rewrite Hrest.
  - simpl in Hn. apply andb_prop in Hn as [Hc Hn]. by rewrite Hc, IH.
Qed.

Lemma drop_word_name n rest :
  all_word n = true → starts_with_word rest = false →
  drop_word (n +:+ rest) = rest.
Proof.
  intros Hn Hrest. induction n as [|c n IH]; unapp; simpl.
  - destruct rest as [|c r]; [done |]. simpl in *. by rewrite Hrest.
  - simpl in Hn. apply andb_prop in Hn as [Hc Hn]. by rewrite Hc, IH.
Qed.

Lemma starts_with_word_app n rest :
  starts_with_word n = true → starts_with_word (n +:+ rest) = true.
Proof. by destruct n. Qed.

Lemma replace_params_colon s :
  starts_with_word s = true →
  replace_params false (String ":" s)
  = ("([^/]+)" +:+ (replace_params true s).1,
     take_word s :: (replace_params true s).2).
Proof.
  intros H. cbn [replace_params andb]. change (Ascii.eqb ":" ":") with true.
  rewrite H. cbn [andb]. by destruct (replace_params true s).
Qed.

Lemma replace_params_spell segs :
  well_formed segs = true →
  replace_params false (spell segs) = (sourceOf segs, namesOf segs).
Proof.
  induction segs as [|[t|n] segs IH]; [done | |];
    cbn [well_formed spell sourceOf namesOf].
  - intros [Ht Hs]%andb_prop. by rewrite (replace_params_plain _ _ Ht), (IH Hs).
  - intros [[[Hw Hn]%andb_prop Hb%negb_true_iff]%andb_prop Hs]%andb_prop.
    change (":" +:+ n +:+ spell segs) with (String ":" (n +:+ spell segs)).
    rewrite (replace_params_colon _ (starts_with_word_app _ _ Hw)).
    by rewrite (replace_params_skip _ _ Hn Hb), (take_word_name _ _ Hn Hb),
      (IH Hs).
Qed.

Lemma plain_not_paren c : is_meta c = false → Ascii.eqb "(" c = false.
Proof.
  intros H. destruct (Ascii.eqb_spec "(" c) as [<-|]; [by vm_compute in H | done].
Qed.

Lemma compile_plain t rest :
  plain t = true →
  compile 0 (t +:+ rest) = (λ r, lits t ++ r) <$> compile 0 rest.
Proof.
  induction t as [|c t IH]; unapp; simpl.
  - intros _. by destruct (compile 0 rest).
  - intros [[Hm%negb_true_iff _]%andb_prop Ht]%andb_prop.
    rewrite (plain_not_paren _ Hm), Hm, (IH Ht). simpl.
    by destruct (compile 0 rest).
Qed.

Lemma compile_segment rest :
  compile 0 ("([^/]+)" +:+ rest) = cons (RGroup NotSlash) <$> compile 0 rest.
Proof. reflexivity. Qed.

Lemma compile_sourceOf segs :
  well_formed segs = true → compile 0 (sourceOf segs) = Some (regexOf segs).
Proof.
  induction segs as [|[t|n] segs IH]; [done | |].
  - simpl. intros [Ht Hs]%andb_prop. by rewrite (compile_plain _ _ Ht), (IH Hs).
  - intros [_ Hs]%andb_prop.
    change (sourceOf (Named n :: segs)) with ("([^/]+)" +:+ sourceOf segs).
    by rewrite compile_segment, (IH Hs).
Qed.

Lemma parsePattern_spell segs :
  well_formed segs = true →
  parsePattern (spell segs)
  = Some {| regex := regexOf segs; paramNames := namesOf segs |}.
Proof.
  intros H. unfold parsePattern, regexStr, pushedNames.
  rewrite (replace_wildcard_none _ (spell_no_star _ H)). simpl.
  rewrite (replace_params_spell _ H). simpl.
  by rewrite (compile_sourceOf _ H).
Qed.

(** A pattern written from plain literal text and [:name] parameters is
    compiled to the expression that reads the text literally and has one
    [([^/]+)] group per parameter, and its names are the parameters' names
    from left to right. *)
Theorem named_parameters_are_parsed (segs : list Segment) :
  well_formed segs = true →
  parsePattern (spell segs)
  = Some {| regex := regexOf segs; paramNames := namesOf segs |}.
Proof. apply parsePattern_spell. Qed.

Lemma named_parameters_are_parsed_witness :
  parsePattern "chat/:id/messages"
  = Some {| regex := lits "chat/" ++ RGroup NotSlash :: lits "/messages";
            paramNames := ["id"] |}.
Proof.
  apply (named_parameters_are_parsed
           [Static "chat/"; Named "id"; Static "/messages"]).
  vm_compute. reflexivity.
Defined.

(** ** Names accepted by a pattern, and the parameters they get *)

Lemma rebuild_lits t r gs :
  rebuild (lits t ++ r) gs = (λ u, t +:+ u) <$> rebuild r gs.
Proof.
  induction t as [|c t IH]; simpl.
  - by destruct (rebuild r gs).
  - rewrite IH. by destruct (rebuild r gs).
Qed.

Lemma segmented_lits t r : segmented (lits t ++ r) = segmented r.
Proof. induction t as [|c t IH]; [done |]. simpl. apply IH. Qed.

Lemma capture_ok_all_in cls g : capture_ok cls g = true → all_in cls g = true.
Proof. by destruct g. Qed.

Lemma no_slash_split g g' t t' :
  all_in NotSlash g = true → all_in NotSlash g' = true →
  g +:+ String "/" t = g' +:+ String "/" t' → g = g' ∧ t = t'.
Proof.
  revert g'. induction g as [|c g IH]; intros [|c' g'] Hg Hg' H;
    rewrite ?append_nil_l, ?append_cons in H.
  - by injection H as ->.
  - injection H as <- _. by vm_compute in Hg'.
  - injection H as -> _. by vm_compute in Hg.
  - injection H as -> H. simpl in Hg, Hg'.
    apply andb_prop in Hg as [_ Hg]. apply andb_prop in Hg' as [_ Hg'].
    by destruct (IH _ Hg Hg' H) as [-> ->].
Qed.

Lemma rebuild_determined r s gs gs' :
  segmented r = true →
  rebuild r gs = Some s → rebuild r gs' = Some s → gs = gs'.
Proof.
  revert s gs gs'. induction r as [|[c|[|]] r IH]; intros s gs gs' Hseg H H'.
  - by destruct gs, gs'.
  - simpl in *.
    destruct (rebuild r gs) as [t|] eqn:E; [| done].
    destruct (rebuild r gs') as [t'|] eqn:E'; [| done].
    injection H as <-. injection H' as ->. by apply (IH t).
  - destruct r; [| done]. destruct gs as [|g [|]], gs' as [|g' [|]];
      simpl in H, H'; try done;
      try (by destruct (capture_ok Dot g));
      try (by destruct (capture_ok Dot g')).
    destruct (capture_ok Dot g), (capture_ok Dot g'); try done.
    injection H as <-. injection H' as H'.
    rewrite !append_nil_r in H'. by subst.
  - destruct r as [|[c|] r']; [| | done].
    + destruct gs as [|g [|]], gs' as [|g' [|]];
        simpl in H, H'; try done;
        try (by destruct (capture_ok NotSlash g));
        try (by destruct (capture_ok NotSlash g')).
      destruct (capture_ok NotSlash g), (capture_ok NotSlash g'); try done.
      injection H as <-. injection H' as H'.
      rewrite !append_nil_r in H'. by subst.
    + cbn [segmented] in Hseg. apply andb_prop in Hseg as [Hc Hseg].
      apply Ascii.eqb_eq in Hc as ->.
      destruct gs as [|g gs], gs' as [|g' gs']; try done.
      cbn [rebuild] in H, H'.
      destruct (capture_ok NotSlash g) eqn:Hg; [| done].
      destruct (capture_ok NotSlash g') eqn:Hg'; [| done].
      destruct (rebuild r' gs) as [t|] eqn:E; [| done].
      destruct (rebuild r' gs') as [t'|] eqn:E'; [| done].
      simpl in H, H'. injection H as <-. injection H' as H'.
      apply no_slash_split in H' as [-> ->]; try by apply capture_ok_all_in.
      f_equal. apply (IH (String "/" t)); [done | |];
        cbn [rebuild]; [by rewrite E | by rewrite E'].
Qed.

Lemma matchPattern_determined pattern r names s params :
  parsePattern pattern = Some {| regex := r; paramNames := names |} →
  segmented r = true →
  matchPattern pattern s = Some params
  ↔ ∃ gs, rebuild r gs = Some s ∧ params = extractParams names (s :: gs).
Proof.
  intros Hp Hseg. unfold matchPattern, exec. rewrite Hp. simpl. split.
  - destruct (match_nodes r s) as [gs|] eqn:E; [| done]. simpl.
    intros [= <-]. exists gs. split; [by apply match_nodes_sound | done].
  - intros (gs & Hr & ->). destruct (match_nodes_complete _ _ _ Hr) as [gs' E].
    rewrite E. simpl.
    by rewrite (rebuild_determined _ _ _ _ Hseg (match_nodes_sound _ _ _ E) Hr).
Qed.

Lemma extractParams_lookup (names : list string) s gs i n :
  names !! i = Some n → n ≠ "__proto__" →
  (∀ j, (i < j)%nat → names !! j ≠ Some n) →
  extractParams names (s :: gs) !! n = Some (gs !! i).
Proof.
  intros Hi Hp Hlast. unfold extractParams.
  rewrite (extractParamsOf_lookup _ _ i) by done.
  rewrite list_lookup_fmap, Nat.add_1_r. simpl. by destruct (gs !! i).
Qed.

(** When every parameter of a pattern is a whole path segment, a name is
    accepted exactly when it is the pattern with each parameter replaced
    by a non-empty string without ["/"]; these strings are unique, and
    the parameters are bound to them from left to right (a name written
    twice keeps its last segment), except that a parameter named
    [__proto__] is never bound. *)
Theorem parameters_are_path_segments (segs : list Segment) s params :
  well_formed segs = true →
  segmented (regexOf segs) = true →
  (matchPattern (spell segs) s = Some params
   ↔ ∃ gs, rebuild (regexOf segs) gs = Some s
           ∧ (∀ gs', rebuild (regexOf segs) gs' = Some s → gs' = gs)
           ∧ params = extractParams (namesOf segs) (s :: gs))
  ∧ (∀ gs i n,
       namesOf segs !! i = Some n → n ≠ "__proto__" →
       (∀ j, (i < j)%nat → namesOf segs !! j ≠ Some n) →
       extractParams (namesOf segs) (s :: gs) !! n = Some (gs !! i))
  ∧ (∀ gs, extractParams (namesOf segs) (s :: gs) !! "__proto__" = None).
Proof.
  intros Hwf Hseg. split_and!.
  - rewrite (matchPattern_determined _ _ _ _ _ (parsePattern_spell _ Hwf) Hseg).
    split.
    + intros (gs & Hr & ->). exists gs. split_and!; [done | | done].
      intros gs' Hr'. by apply (rebuild_determined (regexOf segs) s).
    + intros (gs & Hr & _ & ->). by exists gs.
  - intros gs i n. apply extractParams_lookup.
  - intros gs. apply extractParamsOf_proto.
Qed.

Lemma parameters_are_path_segments_witness :
  (matchPattern "rooms/:room/users/:user" "rooms/7/users/ann"
     = Some {[ "room" := Some "7"; "user" := Some "ann" ]}
   ↔ ∃ gs,
       rebuild (regexOf [Static "rooms/"; Named "room"; Static "/users/";
                         Named "user"]) gs = Some "rooms/7/users/ann"
       ∧ (∀ gs',
            rebuild (regexOf [Static "rooms/"; Named "room"; Static "/users/";
                              Named "user"]) gs' = Some "rooms/7/users/ann"
            → gs' = gs)
       ∧ {[ "room" := Some "7"; "user" := Some "ann" ]}
         = extractParams ["room"; "user"] ("rooms/7/users/ann" :: gs))
  ∧ matchPattern "rooms/:room/users/:__proto__" "rooms/7/users/ann"
    = Some {[ "room" := Some "7" ]}.
Proof.
  split; [| vm_compute; reflexivity].
  apply (parameters_are_path_segments
           [Static "rooms/"; Named "room"; Static "/users/"; Named "user"]);
    vm_compute; reflexivity.
Defined.

(** A pattern of plain text, without parameters, accepts its own text and
    nothing else, and binds no parameter. *)
Theorem static_pattern_matches_only_itself (t s : string) params :
  plain t = true →
  matchPattern t s = Some params ↔ s = t ∧ params = ∅.
Proof.
  intros Ht.
  assert (Hwf : well_formed [Static t] = true) by (simpl; by rewrite Ht).
  pose proof (parsePattern_spell _ Hwf) as Hp.
  cbn [spell regexOf namesOf] in Hp. rewrite append_nil_r in Hp.
  rewrite (matchPattern_determined _ _ _ s params Hp);
    [| by rewrite segmented_lits].
  split.
  - intros (gs & Hr & ->). rewrite rebuild_lits in Hr.
    destruct gs; [| done]. simpl in Hr. injection Hr as <-.
    by rewrite append_nil_r.
  - intros [-> ->]. exists []. rewrite rebuild_lits. simpl.
    by rewrite append_nil_r.
Qed.

Lemma static_pattern_matches_only_itself_witness :
  matchPattern "announcements" "announcements" = Some ∅
  ↔ "announcements" = "announcements" ∧ (∅ : Params) = ∅.
Proof.
  apply (static_pattern_matches_only_itself "announcements").
  vm_compute. reflexivity.
Defined.

Lemma replace_wildcard_step c c2 rest :
  replace_wildcard (String c (String c2 rest))
  = if (Ascii.eqb c "/" && Ascii.eqb c2 "*" && starts_with_word rest)%bool
    then ("/(.+)" +:+ drop_word rest, [take_word rest])
    else ((String c (replace_wildcard (String c2 rest)).1),
          (replace_wildcard (String c2 rest)).2).
Proof.
  change (replace_wildcard (String c (String c2 rest)))
    with (if (Ascii.eqb c "/" && Ascii.eqb c2 "*" && starts_with_word rest)%bool
          then ("/(.+)" +:+ drop_word rest, [take_word rest])
          else let '(out, names) := replace_wildcard (String c2 rest) in
               (String c out, names)).
  by destruct (replace_wildcard (String c2 rest)).
Qed.

Lemma plain_not_star c : is_meta c = false → Ascii.eqb c "*" = false.
Proof.
  intros H. destruct (Ascii.eqb_spec c "*") as [->|]; [by vm_compute in H | done].
Qed.

Lemma replace_wildcard_trailing t n :
  plain t = true → is_name n = true →
  replace_wildcard (t +:+ "/*" +:+ n) = (t +:+ "/(.+)", [n]).
Proof.
  intros Ht [Hw Hn]%andb_prop. induction t as [|c t IH].
  - rewrite append_nil_l.
    change ("/*" +:+ n) with (String "/" (String "*" n)).
    rewrite replace_wildcard_step, Hw.
    change (Ascii.eqb "/" "/" && Ascii.eqb "*" "*" && true) with true.
    cbn iota.
    pose proof (drop_word_name n "" Hn eq_refl) as Hd.
    pose proof (take_word_name n "" Hn eq_refl) as Hk.
    rewrite append_nil_r in Hd, Hk. by rewrite Hd, Hk.
  - simpl in Ht. apply andb_prop in Ht as [[Hm%negb_true_iff Hc]%andb_prop Ht].
    rewrite append_cons. specialize (IH Ht).
    destruct t as [|c2 t'].
    + rewrite append_nil_l in *.
      change ("/*" +:+ n) with (String "/" (String "*" n)) in *.
      rewrite (replace_wildcard_step c), IH.
      change (Ascii.eqb "/" "*") with false. by rewrite andb_false_r.
    + rewrite append_cons in *.
      rewrite (replace_wildcard_step c), IH.
      simpl in Ht. apply andb_prop in Ht as [[Hm2%negb_true_iff _]%andb_prop _].
      by rewrite (plain_not_star _ Hm2), andb_false_r.
Qed.

Lemma parsePattern_trailing_wildcard t n :
  plain t = true → is_name n = true →
  parsePattern (t +:+ "/*" +:+ n)
  = Some {| regex := lits t ++ [RLit "/"; RGroup Dot]; paramNames := [n] |}.
Proof.
  intros Ht Hn. unfold parsePattern, regexStr, pushedNames.
  rewrite (replace_wildcard_trailing _ _ Ht Hn). cbn [fst snd].
  rewrite (replace_params_plain _ "/(.+)" Ht).
  change (replace_params false "/(.+)") with ("/(.+)", @nil string).
  cbn [fst snd]. rewrite (compile_plain _ "/(.+)" Ht).
  by change (compile 0 "/(.+)") with (Some [RLit "/"; RGroup Dot]).
Qed.

(** A pattern of plain text followed by a wildcard, [text/*name], accepts
    exactly the names [text/rest] with a non-empty [rest] (which may
    contain ["/"], but no line break), and binds [name] to that rest,
    unless the name is [__proto__], which is not bound. *)
Theorem wildcard_binds_the_remainder (t n s : string) params :
  plain t = true → is_name n = true →
  matchPattern (t +:+ "/*" +:+ n) s = Some params
  ↔ ∃ rest, capture_ok Dot rest = true
            ∧ s = t +:+ "/" +:+ rest
            ∧ params = if decide (n = "__proto__") then ∅
                       else {[ n := Some rest ]}.
Proof.
  intros Ht Hn.
  assert (∀ rest, extractParams [n] [s; rest]
                  = if decide (n = "__proto__") then ∅ else {[ n := Some rest ]})
    as Hbind.
  { intros rest. unfold extractParams, extractParamsOf. simpl.
    case_decide; [done | by rewrite insert_empty]. }
  rewrite (matchPattern_determined _ _ _ s params
             (parsePattern_trailing_wildcard _ _ Ht Hn));
    [| by rewrite segmented_lits].
  split.
  - intros (gs & Hr & ->). rewrite rebuild_lits in Hr.
    destruct gs as [|rest [|]]; cbn [rebuild] in Hr; try done.
    + destruct (capture_ok Dot rest) eqn:Hok; [| done].
      simpl in Hr. injection Hr as <-. exists rest.
      rewrite append_nil_r. split_and!; [done | done |]. apply Hbind.
    + by destruct (capture_ok Dot rest).
  - intros (rest & Hok & -> & ->). exists [rest]. split.
    + rewrite rebuild_lits. cbn [rebuild]. rewrite Hok. simpl.
      by rewrite append_nil_r.
    + symmetry. apply Hbind.
Qed.

Lemma wildcard_binds_the_remainder_witness :
  matchPattern "files/*path" "files/a/b/c" = Some {[ "path" := Some "a/b/c" ]}
  ↔ ∃ rest, capture_ok Dot rest = true
            ∧ "files/a/b/c" = "files" +:+ "/" +:+ rest
            ∧ ({[ "path" := Some "a/b/c" ]} : Params)
              = if decide ("path" = "__proto__") then ∅
                else {[ "path" := Some rest ]}.
Proof.
  apply (wildcard_binds_the_remainder "files" "path" "files/a/b/c");
    vm_compute; reflexivity.
Defined.

End PatternFacts.

(** ** Insertion-ordered maps *)

Section JsMapFacts.
Context {K V : Type} `{EqDecision K}.
Implicit Types (k : K) (v : V) (m : list (K * V)).

Lemma JsMap_get_None k m : JsMap.get k m = None ↔ k ∉ JsMap.keys m.
Proof.
  unfold JsMap.keys. induction m as [|[k' v'] m IH]; simpl.
  - split; [intros _ []%not_elem_of_nil | done].
  - case_decide as Hk.
    + subst. split; [done |]. intros H. exfalso. apply H. by left.
    + rewrite IH, not_elem_of_cons.
      split; [intros H; split; [intros E; by apply Hk | done] | by intros [_ H]].
Qed.

Lemma JsMap_keys_set k v m :
  JsMap.keys (JsMap.set k v m) =
  match JsMap.get k m with
  | Some _ => JsMap.keys m
  | None => JsMap.keys m ++ [k]
  end.
Proof.
  unfold JsMap.keys. induction m as [|[k' v'] m IH]; simpl; [done |].
  case_decide as Hk; simpl; [by subst |].
  change (k' :: (JsMap.set k v m).*1 =
          match JsMap.get k m with
          | Some _ => k' :: m.*1
          | None => k' :: m.*1 ++ [k]
          end).
  rewrite IH. by destruct (JsMap.get k m).
Qed.

Lemma JsMap_keys_delete k m :
  JsMap.keys (JsMap.delete k m) = filter (λ k', k' ≠ k) (JsMap.keys m).
Proof.
  unfold JsMap.keys, JsMap.delete. induction m as [|[k' v'] m IH]; [done |].
  rewrite fmap_cons. simpl fst.
  destruct (decide (k' = k)) as [->|Hk].
  - rewrite !filter_cons_False by (simpl; intros Hn; by apply Hn). exact IH.
  - rewrite !filter_cons_True by done. rewrite fmap_cons. by rewrite IH.
Qed.

Lemma JsMap_get_delete k m : JsMap.get k (JsMap.delete k m) = None.
Proof.
  apply JsMap_get_None. rewrite JsMap_keys_delete.
  intros [? _]%list_elem_of_filter. done.
Qed.

End JsMapFacts.

(** ** The client *)

Module ClientFacts.
Import Client Wire.
Implicit Types (b : Broadcast).

Ltac crun :=
  unfold emit, bind, ret, throw, try_catch, await, get, modify in *; simpl in *.

Lemma with_sent_same b : with_sent (sent b) b = b.
Proof. by destruct b. Qed.

Lemma isOpen_true b : isOpen b = true ↔ ws b = Some {| readyState := OPEN |}.
Proof.
  unfold isOpen. destruct (ws b) as [[[]]|]; split; (done || congruence).
Qed.

Lemma socket_send_open f b :
  isOpen b = true →
  socket_send f b = (Ok (), with_sent (sent b ++ [f]) b).
Proof. intros H%isOpen_true. unfold socket_send. crun. by rewrite H. Qed.

Lemma rawSend_run f b :
  rawSend f b =
  if isOpen b then (Ok (), with_sent (sent b ++ [f]) b) else (Ok (), b).
Proof.
  unfold rawSend. crun. destruct (isOpen b) eqn:E; [| done].
  by apply socket_send_open.
Qed.

Lemma send_run f b :
  send f b =
  if (_connected b && isOpen b)%bool
  then (Ok (), with_sent (sent b ++ [f]) b)
  else (Ok (), with_queue (queue b ++ [f]) b).
Proof.
  unfold send. crun. destruct (_connected b && isOpen b)%bool eqn:E; [| done].
  apply andb_prop in E as [_ E]. by apply socket_send_open.
Qed.

(** The replay loop and the flush loop on an open socket. *)
Lemma replay_run (l : list string) b :
  isOpen b = true →
  for_each l (λ channel, rawSend (Sub channel)) b
  = (Ok (), with_sent (sent b ++ (Sub <$> l)) b).
Proof.
  revert b. induction l as [|c l IH]; intros b Ho; simpl.
  - unfold ret. by rewrite app_nil_r, with_sent_same.
  - unfold bind. rewrite rawSend_run, Ho. rewrite IH by done. simpl.
    by rewrite <- app_assoc.
Qed.

Lemma flush_run (q : list ClientFrame) b :
  isOpen b = true →
  for_each q socket_send b = (Ok (), with_sent (sent b ++ q) b).
Proof.
  revert b. induction q as [|f q IH]; intros b Ho; simpl.
  - unfold ret. by rewrite app_nil_r, with_sent_same.
  - unfold bind. rewrite socket_send_open by done. rewrite IH by done. simpl.
    by rewrite <- app_assoc.
Qed.

Lemma welcome_run id b :
  isOpen b = true →
  handleMessage (Some (Welcome id)) b
  = (Ok (),
     with_queue []
       (with_sent (sent b ++ (Sub <$> JsMap.keys (subscriptions b)) ++ queue b)
          (with_clientId (Some id) b))).
Proof.
  intros Ho. unfold handleMessage.
  unfold bind at 1. unfold modify at 1.
  unfold bind at 1. unfold get at 1.
  unfold bind at 1. rewrite replay_run by done.
  unfold bind at 1. unfold get at 1.
  unfold bind at 1. rewrite flush_run by done.
  unfold modify. simpl. by rewrite <- app_assoc.
Qed.

Lemma socket_open_run b :
  ws b = Some {| readyState := CONNECTING |} →
  step SocketOpen b
  = with_emitted (emitted b ++ [connected])
      (with_reconnectAttempt (Num 0)
         (with_connected true (with_ws (Some {| readyState := OPEN |}) b))).
Proof. intros Hc. unfold step. simpl. by rewrite Hc. Qed.

Lemma welcome_step_run id b :
  isOpen b = true →
  step (SocketMessage (Frame (Welcome id))) b
  = with_queue []
      (with_sent (sent b ++ (Sub <$> JsMap.keys (subscriptions b)) ++ queue b)
         (with_clientId (Some id) b)).
Proof.
  intros Ho. unfold step. cbn [enabled]. rewrite Ho.
  change (perform (SocketMessage (Frame (Welcome id))) b)
    with (match handleMessage (Some (Welcome id)) b with
          | (Ok a, s') => (Ok a, s')
          | (Throw _, s') => (Ok (), s')
          end).
  by rewrite welcome_run.
Qed.

(** The socket opens and the server's [welcome] arrives. *)
Lemma reconnect_run id b :
  ws b = Some {| readyState := CONNECTING |} →
  step (SocketMessage (Frame (Welcome id))) (step SocketOpen b)
  = with_queue []
      (with_sent (sent b ++ (Sub <$> JsMap.keys (subscriptions b)) ++ queue b)
         (with_clientId (Some id)
            (with_emitted (emitted b ++ [connected])
               (with_reconnectAttempt (Num 0)
                  (with_connected true
                     (with_ws (Some {| readyState := OPEN |}) b)))))).
Proof.
  intros Hc. rewrite socket_open_run by done. by rewrite welcome_step_run.
Qed.

Lemma scheduleReconnect_run b :
  scheduleReconnect b =
  if ge (reconnectAttempt b) (maxReconnectAttempts b) then (Ok (), b)
  else
    (Ok (),
     with_reconnectTimer
       (Some {| delay := backoff (incr (reconnectAttempt b)); pending := true |})
       (with_emitted (emitted b ++ [reconnecting (incr (reconnectAttempt b))])
          (with_reconnectAttempt (incr (reconnectAttempt b)) b))).
Proof.
  unfold scheduleReconnect. crun.
  by destruct (ge (reconnectAttempt b) (maxReconnectAttempts b)).
Qed.

(** C7: when a reconnection is scheduled, the attempt counter is first
    incremented to n, [reconnecting] is emitted with n, and the timer is
    set to min(1000 * 2^(n-1), 30000) milliseconds: 1000 * 2^(n-1) up to
    the fifth attempt and 30000 from the sixth on. Six failed attempts
    in a row give 1000, 2000, 4000, 8000, 16000, 30000. *)
Theorem C7_backoff_doubles_up_to_the_cap (b : Broadcast) (k : Z) :
  reconnectAttempt b = Num k → (0 ≤ k)%Z →
  ge (Num k) (maxReconnectAttempts b) = false →
  let n := (k + 1)%Z in
  let b' := (scheduleReconnect b).2 in
  (scheduleReconnect b).1 = Ok ()
  ∧ reconnectAttempt b' = Num n
  ∧ emitted b' = emitted b ++ [reconnecting (Num n)]
  ∧ reconnectTimer b'
    = Some {| delay := Z.min (1000 * 2 ^ (n - 1)) 30000; pending := true |}
  ∧ ((n ≤ 5)%Z → delay <$> reconnectTimer b' = Some (1000 * 2 ^ (n - 1))%Z)
  ∧ ((6 ≤ n)%Z → delay <$> reconnectTimer b' = Some 30000%Z)
  ∧ (λ i, delay <$> reconnectTimer
            (run (take i six_failures) (new "wss://host/_broadcast" None)))
    <$> [1; 3; 5; 7; 9; 11]
    = Some <$> [1000; 2000; 4000; 8000; 16000; 30000]%Z
  ∧ emitted (run six_failures (new "wss://host/_broadcast" None))
    = reconnecting ∘ Num <$> [1; 2; 3; 4; 5; 6]%Z.
Proof.
  intros Ha Hk Hmax. cbv zeta.
  split_and!; [| | | | | | vm_compute; reflexivity | vm_compute; reflexivity];
    rewrite scheduleReconnect_run, Ha, Hmax; simpl; try reflexivity.
  - intros Hn. f_equal. apply Z.min_l.
    replace (k + 1 - 1)%Z with k by lia.
    assert (2 ^ k ≤ 2 ^ 4)%Z by (apply Z.pow_le_mono_r; lia). lia.
  - intros Hn. f_equal. apply Z.min_r.
    replace (k + 1 - 1)%Z with k by lia.
    assert (2 ^ 5 ≤ 2 ^ k)%Z by (apply Z.pow_le_mono_r; lia). lia.
Qed.

Lemma C7_backoff_doubles_up_to_the_cap_witness :
  reconnectTimer
    (scheduleReconnect
       (with_reconnectAttempt (Num 5) (new "wss://host/_broadcast" None))).2
  = Some {| delay := 30000; pending := true |}.
Proof.
  destruct (C7_backoff_doubles_up_to_the_cap
              (with_reconnectAttempt (Num 5) (new "wss://host/_broadcast" None)) 5)
    as (_ & _ & _ & Ht & _).
  - reflexivity.
  - lia.
  - reflexivity.
  - rewrite Ht. reflexivity.
Defined.

Lemma subscribe_subscriptions c b :
  subscriptions (subscribe c b).2 =
  match JsMap.get c (subscriptions b) with
  | Some _ => subscriptions b
  | None => JsMap.set c (List.length (objects b)) (subscriptions b)
  end.
Proof.
  unfold subscribe. crun.
  destruct (JsMap.get c (subscriptions b)) eqn:E; [done |]. simpl.
  destruct (_connected b); simpl; [| done].
  rewrite rawSend_run. simpl. by destruct (isOpen _).
Qed.

Lemma leave_subscriptions h s b :
  objects b !! h = Some s →
  subscriptions (leave h b).2 = JsMap.delete (channel s) (subscriptions b).
Proof.
  intros Hs. unfold leave. crun. rewrite Hs. rewrite send_run.
  by destruct (_connected b && isOpen b)%bool.
Qed.

(** C8: when the socket of a client opens and the server's [welcome]
    arrives, the client emits [connected] and resets the attempt counter
    at the opening, and at the [welcome] sends one [sub] for every
    channel it holds, in the order of its subscription map, and after
    them the queued messages in the order they were queued; the queue is
    then empty. The subscription map keeps the order of subscription:
    [subscribe] puts a new channel last and leaves a held one in place,
    and [leave] takes one channel out. *)
Theorem C8_reconnect_replays_then_flushes (b : Broadcast) (id : string) :
  ws b = Some {| readyState := CONNECTING |} →
  let b1 := step SocketOpen b in
  let b2 := step (SocketMessage (Frame (Welcome id))) b1 in
  emitted b1 = emitted b ++ [connected]
  ∧ reconnectAttempt b1 = Num 0
  ∧ sent b1 = sent b
  ∧ sent b2 = sent b ++ (Sub <$> JsMap.keys (subscriptions b)) ++ queue b
  ∧ queue b2 = []
  ∧ subscriptions b2 = subscriptions b
  ∧ (∀ c b0, JsMap.keys (subscriptions (subscribe c b0).2) =
             match JsMap.get c (subscriptions b0) with
             | Some _ => JsMap.keys (subscriptions b0)
             | None => JsMap.keys (subscriptions b0) ++ [c]
             end)
  ∧ (∀ h s b0, objects b0 !! h = Some s →
       JsMap.keys (subscriptions (leave h b0).2)
       = filter (λ c, c ≠ channel s) (JsMap.keys (subscriptions b0))).
Proof.
  intros Hc. simpl. rewrite reconnect_run by done.
  split_and!; try done.
  - by rewrite socket_open_run.
  - by rewrite socket_open_run.
  - by rewrite socket_open_run.
  - intros c b0. rewrite subscribe_subscriptions.
    destruct (JsMap.get c (subscriptions b0)) eqn:E; [done |].
    by rewrite JsMap_keys_set, E.
  - intros h s b0 Hs. rewrite (leave_subscriptions h s b0 Hs).
    apply JsMap_keys_delete.
Qed.

Lemma C8_reconnect_replays_then_flushes_witness :
  ws reconnecting_client = Some {| readyState := CONNECTING |}
  ∧ queue reconnecting_client
    = [ClientMsg "chat/1" "send" "first"; ClientMsg "chat/2" "send" "second"]
  ∧ sent (step (SocketMessage (Frame (Welcome "y")))
            (step SocketOpen reconnecting_client))
    = sent reconnecting_client
      ++ [Sub "chat/1"; Sub "chat/2";
          ClientMsg "chat/1" "send" "first"; ClientMsg "chat/2" "send" "second"].
Proof.
  assert (ws reconnecting_client = Some {| readyState := CONNECTING |}) as Hc
    by (vm_compute; reflexivity).
  split_and!; [exact Hc | vm_compute; reflexivity |].
  destruct (C8_reconnect_replays_then_flushes reconnecting_client "y" Hc)
    as (_ & _ & _ & Hs & _).
  rewrite Hs. vm_compute. reflexivity.
Defined.

Lemma leave_run h s b :
  objects b !! h = Some s →
  leave h b =
  (Ok (),
   with_subscriptions (JsMap.delete (channel s) (subscriptions b))
     (with_objects (alter (with_listeners []) h (objects b))
        (if (_connected b && isOpen b)%bool
         then with_sent (sent b ++ [Unsub (channel s)]) b
         else with_queue (queue b ++ [Unsub (channel s)]) b))).
Proof.
  intros Hs. unfold leave. crun. rewrite Hs. rewrite send_run.
  by destruct (_connected b && isOpen b)%bool.
Qed.

(** A client that leaves a channel while disconnected transmits the
    [unsub] frame after it has reconnected. *)
Lemma unsub_is_transmitted_after_reconnect :
  _connected offline_client = false
  ∧ isOpen offline_client = false
  ∧ (Unsub "chat/1" ∉ sent offline_client)
  ∧ sent (run leave_offline_then_reconnect offline_client)
    = sent offline_client ++ [Sub "chat/2"; Unsub "chat/1"]
  ∧ Unsub "chat/1" ∈ sent (run leave_offline_then_reconnect offline_client).
Proof.
  assert (sent (run leave_offline_then_reconnect offline_client)
          = sent offline_client ++ [Sub "chat/2"; Unsub "chat/1"]) as Hs
    by (vm_compute; reflexivity).
  split_and!; [vm_compute; reflexivity | vm_compute; reflexivity | | exact Hs |].
  - vm_compute. intros H. repeat (apply elem_of_cons in H as [H|H]; [discriminate |]).
    by apply not_elem_of_nil in H.
  - rewrite Hs. apply elem_of_app. right. apply list_elem_of_further, list_elem_of_here.
Qed.

(** [leave()] clears the listeners of the subscription and takes its
    channel out of the replay set, and returns normally. When the client
    is connected on an open socket the [unsub] frame is sent at once.
    Otherwise the frame is put at the end of the outbound queue; when the
    client reconnects with no call in between, it is transmitted behind
    the re-subscriptions (which leave out that channel) and the messages
    queued before it. *)
Theorem leave_queues_unsub_while_disconnected (b : Broadcast) (h : nat)
    (s : Subscription) :
  objects b !! h = Some s →
  let c := channel s in
  let b' := (leave h b).2 in
  (leave h b).1 = Ok ()
  ∧ (listeners <$> (objects b' !! h)) = Some []
  ∧ (c ∉ JsMap.keys (subscriptions b'))
  ∧ JsMap.keys (subscriptions b')
    = filter (λ x, x ≠ c) (JsMap.keys (subscriptions b))
  ∧ ((_connected b && isOpen b)%bool = true →
       sent b' = sent b ++ [Unsub c] ∧ queue b' = queue b)
  ∧ ((_connected b && isOpen b)%bool = false →
       sent b' = sent b ∧ queue b' = queue b ++ [Unsub c]
       ∧ ∀ id,
           sent (step (SocketMessage (Frame (Welcome id)))
                   (step SocketOpen (connect b').2))
           = sent b
             ++ (Sub <$> filter (λ x, x ≠ c) (JsMap.keys (subscriptions b)))
             ++ queue b ++ [Unsub c]).
Proof.
  intros Hs. cbv zeta. rewrite (leave_run h s b Hs). cbn [fst snd].
  split_and!.
  - done.
  - simpl. by rewrite list_lookup_alter_eq, Hs.
  - simpl. rewrite JsMap_keys_delete. intros [? _]%list_elem_of_filter. done.
  - simpl. apply JsMap_keys_delete.
  - intros ->. done.
  - intros ->. split_and!; [done | done |]. intros id.
    rewrite reconnect_run by done. simpl. by rewrite JsMap_keys_delete.
Qed.

Lemma leave_queues_unsub_while_disconnected_witness :
  objects offline_client !! 0
  = Some {| channel := "chat/1"; listeners := [("message", [7])] |}
  ∧ (listeners <$> (objects (leave 0 offline_client).2 !! 0)) = Some []
  ∧ queue (leave 0 offline_client).2 = [Unsub "chat/1"]
  ∧ sent (leave 0 offline_client).2 = sent offline_client.
Proof.
  assert (objects offline_client !! 0
          = Some {| channel := "chat/1"; listeners := [("message", [7])] |}) as Ho
    by (vm_compute; reflexivity).
  destruct (leave_queues_unsub_while_disconnected offline_client 0 _ Ho)
    as (_ & Hl & _ & _ & _ & Hq).
  destruct Hq as (Hsent & Hqueue & _); [vm_compute; reflexivity |].
  split_and!; [exact Ho | exact Hl | | exact Hsent].
  rewrite Hqueue. vm_compute. reflexivity.
Defined.

(** ** The queued [unsub] *)

(** C9 (the code departs from it): [leave()] on a disconnected client
    does not drop the [unsub]; [send] queues it. The client below left
    ["chat/1"] while offline and subscribed to it again before the
    connection came back. After the [welcome] it replays
    [sub chat/2; sub chat/1] and then flushes the queue, so the stale
    [unsub chat/1] is transmitted, and last. A hub that is given these
    frames on the new connection ends with the connection out of
    ["chat/1"], a channel the client holds. *)
Theorem C9_queued_unsub_cancels_resubscription :
  let b := run [CallLeave 0; CallSubscribe "chat/1"; TimerFires; SocketOpen;
                SocketMessage (Frame (Welcome "y"))] offline_client in
  let frames := drop (List.length (sent offline_client)) (sent b) in
  let s := {| Hub.ws_id := 5; Hub.ws_request := None |} in
  let w := Hub.run ([Hub.OpChannel "chat/:id" Hub.NoConfig None; Hub.OpOpen s "y"]
                    ++ (Hub.OpMessage s ∘ Hub.Frame <$> frames)) Hub.init in
  _connected offline_client = false
  ∧ JsMap.keys (subscriptions offline_client) = ["chat/1"; "chat/2"]
  ∧ JsMap.keys (subscriptions b) = ["chat/2"; "chat/1"]
  ∧ frames = [Sub "chat/2"; Sub "chat/1"; Unsub "chat/1"]
  ∧ queue b = []
  ∧ Hub.channelsOf (Hub.hub w) "y" = ["chat/2"]
  ∧ Hub.subscriberCount (Hub.hub w) "chat/1" = 0
  ∧ Hub.subscriberCount (Hub.hub w) "chat/2" = 1.
Proof. cbv zeta. split_and!; vm_compute; reflexivity. Qed.

(** ** The client: subscriptions, queueing, listeners, closing *)

Lemma with_called_same b : with_called (called b) b = b.
Proof. by destruct b. Qed.

Lemma dispatch_loop_run (set : list Callback) (d : Data) b :
  for_each set (λ cb, modify (λ b, with_called (called b ++ [(cb, d)]) b)) b
  = (Ok (), with_called (called b ++ ((λ cb, (cb, d)) <$> set)) b).
Proof.
  revert b. induction set as [|cb set IH]; intros b; simpl.
  - unfold ret. by rewrite app_nil_r, with_called_same.
  - unfold bind, modify. rewrite IH. simpl. by rewrite <- app_assoc.
Qed.

Lemma handle_msg_run c e d b :
  handleMessage (Some (Msg c e d)) b
  = (Ok (), with_called (called b ++ ((λ cb, (cb, d)) <$> listenersFor b c e)) b).
Proof.
  unfold handleMessage, listenersFor, _dispatch. crun.
  destruct (JsMap.get c (subscriptions b)) as [h|]; simpl;
    [| by rewrite app_nil_r, with_called_same].
  destruct (objects b !! h) as [s|]; simpl;
    [| by rewrite app_nil_r, with_called_same].
  destruct (JsMap.get e (listeners s)) as [set|]; simpl;
    [| by rewrite app_nil_r, with_called_same].
  apply dispatch_loop_run.
Qed.

Lemma JsMap_get_set {K V} `{EqDecision K} (k : K) (v : V) (m : list (K * V)) :
  JsMap.get k (JsMap.set k v m) = Some v.
Proof.
  induction m as [|[k' v'] m IH]; simpl.
  - by rewrite decide_True.
  - destruct (decide (k' = k)) as [->|Hk]; simpl.
    + by rewrite decide_True.
    + by rewrite decide_False.
Qed.

Lemma JsMap_get_set_ne {K V} `{EqDecision K} (k k' : K) (v : V) (m : list (K * V)) :
  k ≠ k' → JsMap.get k' (JsMap.set k v m) = JsMap.get k' m.
Proof.
  intros Hne. induction m as [|[k0 v0] m IH]; simpl.
  - by rewrite decide_False.
  - destruct (decide (k0 = k)) as [->|Hk]; simpl.
    + by rewrite !decide_False.
    + by rewrite IH.
Qed.

Lemma JsMap_set_set {K V} `{EqDecision K} (k : K) (v v' : V) (m : list (K * V)) :
  JsMap.set k v' (JsMap.set k v m) = JsMap.set k v' m.
Proof.
  induction m as [|[k0 v0] m IH]; simpl.
  - by rewrite decide_True.
  - destruct (decide (k0 = k)) as [->|Hk]; simpl.
    + by rewrite decide_True.
    + by rewrite decide_False, IH.
Qed.

Lemma subscribe_run c b :
  subscribe c b =
  match JsMap.get c (subscriptions b) with
  | Some h => (Ok h, b)
  | None =>
      let b1 :=
        with_subscriptions (JsMap.set c (List.length (objects b)) (subscriptions b))
          (with_objects (objects b ++ [{| channel := c; listeners := [] |}]) b) in
      (Ok (List.length (objects b)),
       if (_connected b && isOpen b)%bool
       then with_sent (sent b ++ [Sub c]) b1 else b1)
  end.
Proof.
  unfold subscribe. crun.
  destruct (JsMap.get c (subscriptions b)) eqn:E; [done |]. simpl.
  destruct (_connected b); simpl; [| done].
  rewrite rawSend_run. unfold isOpen. simpl. by destruct (ws b) as [[[]]|].
Qed.

(** [subscribe] returns normally; a second [subscribe] for the same
    channel returns the same subscription and changes nothing. A channel
    that was not held is put last in the subscription map, and its [sub]
    frame is sent only when the client is connected on an open socket;
    for a channel already held nothing is sent. *)
Theorem subscribe_twice_gives_the_same_subscription (c : string) b :
  ∃ h, (subscribe c b).1 = Ok h
       ∧ subscribe c (subscribe c b).2 = (Ok h, (subscribe c b).2)
       ∧ JsMap.keys (subscriptions (subscribe c b).2)
         = (if decide (c ∈ JsMap.keys (subscriptions b))
            then JsMap.keys (subscriptions b)
            else JsMap.keys (subscriptions b) ++ [c])
       ∧ sent (subscribe c b).2
         = (if decide (c ∈ JsMap.keys (subscriptions b)) then sent b
            else if (_connected b && isOpen b)%bool then sent b ++ [Sub c]
            else sent b).
Proof.
  rewrite (subscribe_run c b).
  destruct (JsMap.get c (subscriptions b)) as [h|] eqn:E.
  - assert (c ∈ JsMap.keys (subscriptions b)) as Hin.
    { destruct (decide (c ∈ JsMap.keys (subscriptions b))) as [|Hn]; [done |].
      apply JsMap_get_None in Hn. congruence. }
    exists h. rewrite !decide_True by done. simpl.
    rewrite subscribe_run, E. done.
  - pose proof (proj1 (JsMap_get_None _ _) E) as Hn.
    exists (List.length (objects b)). rewrite !decide_False by done.
    cbv zeta. split_and!.
    + done.
    + rewrite subscribe_run.
      destruct (_connected b && isOpen b)%bool; simpl; by rewrite JsMap_get_set.
    + destruct (_connected b && isOpen b)%bool; simpl;
        by rewrite JsMap_keys_set, E.
    + by destruct (_connected b && isOpen b)%bool.
Qed.

Lemma sub_send_run h e d b :
  sub_send h e d b =
  match objects b !! h with
  | None => (Ok (), b)
  | Some s =>
      if (_connected b && isOpen b)%bool
      then (Ok (), with_sent (sent b ++ [ClientMsg (channel s) e d]) b)
      else (Ok (), with_queue (queue b ++ [ClientMsg (channel s) e d]) b)
  end.
Proof.
  unfold sub_send. crun. destruct (objects b !! h); [| done]. apply send_run.
Qed.

Lemma with_queue_same b : with_queue (queue b) b = b.
Proof. by destruct b. Qed.

Lemma run_sends msgs b :
  (_connected b && isOpen b)%bool = false →
  run (sends msgs) b = with_queue (queue b ++ omap (frameOf b) msgs) b.
Proof.
  revert b. induction msgs as [|[[h e] d] msgs IH]; intros b Hoff.
  - simpl. by rewrite app_nil_r, with_queue_same.
  - change (run (sends ((h, e, d) :: msgs)) b)
      with (run (sends msgs) (sub_send h e d b).2).
    rewrite sub_send_run, Hoff. unfold frameOf at 1. simpl.
    destruct (objects b !! h) as [s|] eqn:E; simpl.
    + rewrite IH by done. simpl. by rewrite <- app_assoc.
    + by apply IH.
Qed.

(** Messages sent through subscriptions while the client is not
    connected on an open socket are not transmitted: they are put on the
    queue in the order of the calls, behind what was queued before. Once
    the socket is connected again and the [welcome] arrives, they are all
    transmitted, in that order, after the re-subscriptions. *)
Theorem offline_messages_are_delivered_in_order
    (msgs : list (nat * string * Data)) (id : string) b :
  (_connected b && isOpen b)%bool = false →
  let b1 := run (sends msgs) b in
  sent b1 = sent b
  ∧ queue b1 = queue b ++ omap (frameOf b) msgs
  ∧ sent (step (SocketMessage (Frame (Welcome id)))
            (step SocketOpen (connect b1).2))
    = sent b ++ (Sub <$> JsMap.keys (subscriptions b))
        ++ queue b ++ omap (frameOf b) msgs.
Proof.
  intros Hoff. cbv zeta. rewrite (run_sends msgs b Hoff).
  split_and!; [done | done |]. by rewrite reconnect_run.
Qed.

Lemma offline_messages_are_delivered_in_order_witness :
  queue (run (sends [(0, "send", "first"); (1, "send", "second")]) offline_client)
  = [ClientMsg "chat/1" "send" "first"; ClientMsg "chat/2" "send" "second"]
  ∧ sent (step (SocketMessage (Frame (Welcome "y")))
            (step SocketOpen
               (connect (run (sends [(0, "send", "first"); (1, "send", "second")])
                           offline_client)).2))
    = sent offline_client
      ++ [Sub "chat/1"; Sub "chat/2";
          ClientMsg "chat/1" "send" "first"; ClientMsg "chat/2" "send" "second"].
Proof.
  destruct (offline_messages_are_delivered_in_order
              [(0, "send", "first"); (1, "send", "second")] "y" offline_client)
    as (_ & Hq & Hs).
  - vm_compute. reflexivity.
  - split; [rewrite Hq | rewrite Hs]; vm_compute; reflexivity.
Defined.

(** A message sent after the socket has opened but before the server's
    [welcome] is transmitted at once: it goes out ahead of the
    re-subscriptions and of the messages queued while disconnected,
    which wait for the [welcome]. *)
Theorem message_sent_before_welcome_overtakes_queue h s e d (id : string) b :
  ws b = Some {| readyState := CONNECTING |} →
  objects b !! h = Some s →
  sent (run [SocketOpen; CallSend h e d; SocketMessage (Frame (Welcome id))] b)
  = sent b ++ [ClientMsg (channel s) e d]
      ++ (Sub <$> JsMap.keys (subscriptions b)) ++ queue b.
Proof.
  intros Hc Hs.
  change (run [SocketOpen; CallSend h e d; SocketMessage (Frame (Welcome id))] b)
    with (step (SocketMessage (Frame (Welcome id)))
            (sub_send h e d (step SocketOpen b)).2).
  rewrite socket_open_run by done. rewrite sub_send_run. simpl. rewrite Hs.
  rewrite welcome_step_run by done. simpl. by rewrite <- app_assoc.
Qed.

Lemma message_sent_before_welcome_overtakes_queue_witness :
  sent (run [SocketOpen; CallSend 1 "send" "third";
             SocketMessage (Frame (Welcome "y"))] reconnecting_client)
  = sent reconnecting_client
    ++ [ClientMsg "chat/2" "send" "third"; Sub "chat/1"; Sub "chat/2";
        ClientMsg "chat/1" "send" "first"; ClientMsg "chat/2" "send" "second"].
Proof.
  rewrite (message_sent_before_welcome_overtakes_queue
             1 {| channel := "chat/2"; listeners := [] |} "send" "third" "y"
             reconnecting_client); vm_compute; reflexivity.
Defined.

Lemma JsSet_add_add {A} `{EqDecision A} (x : A) (l : list A) :
  JsSet.add x (JsSet.add x l) = JsSet.add x l.
Proof. apply JsSet_add_present. apply JsSet_elem_of_add. by left. Qed.

Lemma listenersFor_on c h s e e' cb b :
  JsMap.get c (subscriptions b) = Some h → objects b !! h = Some s →
  listenersFor (on h e cb b).2 c e'
  = if decide (e' = e) then JsSet.add cb (listenersFor b c e)
    else listenersFor b c e'.
Proof.
  intros Hc Hs. unfold listenersFor, on, modify. simpl. rewrite Hc. simpl.
  rewrite list_lookup_alter_eq, Hs. simpl.
  destruct (decide (e' = e)) as [->|Hne].
  - by rewrite JsMap_get_set.
  - rewrite JsMap_get_set_ne by done. done.
Qed.

(** [Subscription.on] adds the callback to the listeners of that event
    only, last in order; registering the same callback again changes
    nothing, so an incoming event calls it once. An incoming [msg] for
    the channel calls the listeners of its event in registration order
    with the event's data. *)
Theorem listener_is_called_once_per_event c h s e (cb : Callback) b :
  JsMap.get c (subscriptions b) = Some h → objects b !! h = Some s →
  let b1 := (on h e cb b).2 in
  listenersFor b1 c e = JsSet.add cb (listenersFor b c e)
  ∧ listenersFor (on h e cb b1).2 c e = listenersFor b1 c e
  ∧ (∀ e', e' ≠ e → listenersFor b1 c e' = listenersFor b c e')
  ∧ (∀ d, handleMessage (Some (Msg c e d)) b1
          = (Ok (), with_called
                      (called b1
                       ++ ((λ f, (f, d)) <$> JsSet.add cb (listenersFor b c e)))
                      b1)).
Proof.
  intros Hc Hs. cbv zeta.
  assert (listenersFor (on h e cb b).2 c e = JsSet.add cb (listenersFor b c e)) as H1.
  { rewrite (listenersFor_on c h s) by done. by rewrite decide_True. }
  split_and!.
  - done.
  - assert (objects (on h e cb b).2 !! h
            = Some (with_listeners
                      (JsMap.set e (JsSet.add cb (default [] (JsMap.get e (listeners s))))
                         (listeners s)) s)) as Hs'.
    { unfold on, modify. simpl. by rewrite list_lookup_alter_eq, Hs. }
    rewrite (listenersFor_on c h _ e e cb (on h e cb b).2 Hc Hs').
    rewrite decide_True by done. rewrite H1. apply JsSet_add_add.
  - intros e' Hne. rewrite (listenersFor_on c h s) by done.
    by rewrite decide_False.
  - intros d. rewrite handle_msg_run. by rewrite H1.
Qed.

Lemma listener_is_called_once_per_event_witness :
  listenersFor (on 0 "message" 7 offline_client).2 "chat/1" "message" = [7]
  ∧ listenersFor (on 0 "message" 8 offline_client).2 "chat/1" "message" = [7; 8].
Proof.
  destruct (listener_is_called_once_per_event "chat/1" 0
              {| channel := "chat/1"; listeners := [("message", [7])] |}
              "message" 7 offline_client) as (H7 & _);
    [vm_compute; reflexivity | vm_compute; reflexivity |].
  split; [rewrite H7 |]; vm_compute; reflexivity.
Defined.

(** After [leave()] an incoming [msg] for the channel that was left
    reaches no listener and changes nothing. *)
Theorem left_channel_receives_nothing h s e d b :
  objects b !! h = Some s →
  listenersFor (leave h b).2 (channel s) e = []
  ∧ handleMessage (Some (Msg (channel s) e d)) (leave h b).2
    = (Ok (), (leave h b).2).
Proof.
  intros Hs.
  assert (listenersFor (leave h b).2 (channel s) e = []) as Hl.
  { rewrite (leave_run h s b Hs). unfold listenersFor. simpl.
    by rewrite JsMap_get_delete. }
  split; [done |]. rewrite handle_msg_run, Hl. simpl.
  by rewrite app_nil_r, with_called_same.
Qed.

Lemma left_channel_receives_nothing_witness :
  handleMessage (Some (Msg "chat/1" "message" "hello")) (leave 0 offline_client).2
  = (Ok (), (leave 0 offline_client).2).
Proof.
  apply (left_channel_receives_nothing 0
           {| channel := "chat/1"; listeners := [("message", [7])] |}
           "message" "hello" offline_client).
  vm_compute. reflexivity.
Defined.

Lemma onmessage_frame f b :
  onmessage (Frame f) b
  = match handleMessage (Some f) b with
    | (Ok a, s') => (Ok a, s')
    | (Throw _, s') => (Ok (), s')
    end.
Proof. reflexivity. Qed.

Lemma step_subscribe c b : step (CallSubscribe c) b = (subscribe c b).2.
Proof.
  unfold step. cbn [enabled perform]. unfold bind, ret.
  by destruct (subscribe c b) as [[] ?].
Qed.

Lemma app_step_link op b :
  app_op op = true →
  ws (step op b) = ws b
  ∧ maxReconnectAttempts (step op b) = maxReconnectAttempts b
  ∧ reconnectAttempt (step op b) = reconnectAttempt b
  ∧ reconnectTimer (step op b) = reconnectTimer b
  ∧ _connected (step op b) = _connected b
  ∧ (∃ es, emitted (step op b) = emitted b ++ es ∧ Forall quiet es)
  ∧ (isOpen b = false → sent (step op b) = sent b).
Proof.
  assert (∀ l : list Lifecycle, ∃ es, l = l ++ es ∧ Forall quiet es) as Hnil.
  { intros l. exists []. by rewrite app_nil_r. }
  destruct op as [c|h e cb|h e d|h| | |raw| | |]; cbn [app_op]; intros Happ;
    try discriminate; clear Happ.
  - rewrite step_subscribe, subscribe_run.
    destruct (JsMap.get c (subscriptions b)); simpl; [by split_and! |].
    destruct (_connected b && isOpen b)%bool eqn:E; simpl; split_and!; try done.
    intros Ho. by rewrite Ho, andb_false_r in E.
  - unfold step, on, modify. simpl. by split_and!.
  - unfold step. cbn [enabled perform]. rewrite sub_send_run.
    destruct (objects b !! h); [| by split_and!].
    destruct (_connected b && isOpen b)%bool eqn:E; simpl; split_and!; try done.
    intros Ho. by rewrite Ho, andb_false_r in E.
  - unfold step. cbn [enabled perform].
    destruct (objects b !! h) as [s|] eqn:Hs.
    + rewrite (leave_run h s b Hs).
      destruct (_connected b && isOpen b)%bool eqn:E; simpl; split_and!; try done.
      intros Ho. by rewrite Ho, andb_false_r in E.
    + unfold leave. crun. rewrite Hs. by split_and!.
  - unfold step. cbn [enabled perform].
    destruct (isOpen b) eqn:Ho; [| by split_and!].
    destruct raw as [| |f]; [by split_and! | by split_and! |].
    rewrite onmessage_frame. destruct f as [id|c|c r|c e d|].
    + rewrite welcome_run by done. simpl. by split_and!.
    + unfold handleMessage, emit, modify. simpl. split_and!; try done.
      eexists. split; [done |]. by repeat constructor.
    + unfold handleMessage, emit, modify. simpl. split_and!; try done.
      eexists. split; [done |]. by repeat constructor.
    + rewrite handle_msg_run. simpl. by split_and!.
    + unfold handleMessage. rewrite rawSend_run, Ho. simpl. by split_and!.
Qed.

Lemma onclose_run b :
  onclose b
  = scheduleReconnect
      (if _connected b
       then with_emitted (emitted b ++ [disconnected]) (with_connected false b)
       else with_connected false b).
Proof. destruct b as [? ? ? ? ? ? ? [] ? ? ? ? ?]; reflexivity. Qed.

Lemma socket_close_run b :
  step SocketClose b =
  if enabled SocketClose b then
    let b0 := with_ws ((λ _, {| readyState := CLOSED |}) <$> ws b) b in
    let b1 := if _connected b
              then with_emitted (emitted b ++ [disconnected]) (with_connected false b0)
              else with_connected false b0 in
    if ge (reconnectAttempt b) (maxReconnectAttempts b) then b1
    else
      with_reconnectTimer
        (Some {| delay := backoff (incr (reconnectAttempt b)); pending := true |})
        (with_emitted (emitted b1 ++ [reconnecting (incr (reconnectAttempt b))])
           (with_reconnectAttempt (incr (reconnectAttempt b)) b1))
  else b.
Proof.
  unfold step. destruct (enabled SocketClose b); [| done].
  cbn [perform]. unfold bind at 1. unfold modify at 1.
  rewrite onclose_run, scheduleReconnect_run. cbv zeta.
  cbn [_connected with_ws]. destruct (_connected b); simpl;
    by destruct (ge (reconnectAttempt b) (maxReconnectAttempts b)).
Qed.


Lemma backoff_bounds k : (1 ≤ k)%Z → (1000 ≤ backoff (Num k) ≤ 30000)%Z.
Proof.
  intros Hk. unfold backoff.
  assert (0 < 2 ^ (k - 1))%Z by (apply Z.pow_pos_nonneg; lia). lia.
Qed.

Lemma ge_next k mx : ge (Num k) mx = false → ge mx (Num (k + 1)) = true.
Proof. destruct mx as [m|]; simpl; [| done]. lia. Qed.

Lemma quiet_event_ok mx e : quiet e → event_ok mx e.
Proof. by destruct e. Qed.

Lemma timer_ok_retired (t : option Timer) :
  timer_ok t → timer_ok ((λ t, {| delay := delay t; pending := false |}) <$> t).
Proof. by destruct t. Qed.

Lemma bounded_step mx op b : bounded mx b → bounded mx (step op b).
Proof.
  intros (Hmx & Ha & He & Ht).
  destruct (app_op op) eqn:Happ.
  - destruct (app_step_link op b Happ) as (_ & E2 & E3 & E4 & _ & (es & E6 & Hq) & _).
    unfold bounded. rewrite E2, E3, E4, E6. split_and!; try done.
    apply Forall_app. split; [done |].
    eapply Forall_impl; [exact Hq | apply quiet_event_ok].
  - destruct op as [c|h e cb|h e d|h| | |raw| | |]; try discriminate; clear Happ.
    + unfold bounded, step, close, modify, bind. simpl.
      split_and!; try done. by apply timer_ok_retired.
    + unfold step. destruct (enabled SocketOpen b); [| done].
      unfold bounded. simpl. split_and!; try done; [by left |].
      apply Forall_app. split; [done |]. by repeat constructor.
    + rewrite socket_close_run. destruct (enabled SocketClose b); [| done].
      cbv zeta.
      assert (Forall (event_ok mx)
                (emitted (if _connected b
                          then with_emitted (emitted b ++ [disconnected])
                                 (with_connected false
                                    (with_ws ((λ _, {| readyState := CLOSED |}) <$> ws b) b))
                          else with_connected false
                                 (with_ws ((λ _, {| readyState := CLOSED |}) <$> ws b) b))))
        as He'.
      { destruct (_connected b); simpl; [| done].
        apply Forall_app. split; [done |]. by repeat constructor. }
      destruct (ge (reconnectAttempt b) (maxReconnectAttempts b)) eqn:Hge.
      * unfold bounded. destruct (_connected b); simpl in *; by split_and!.
      * destruct (reconnectAttempt b) as [k|] eqn:Hk; [| done].
        destruct Ha as [Hk0 _]. rewrite Hmx in Hge.
        pose proof (ge_next _ _ Hge) as Hnext.
        unfold bounded. cbn [incr]. split_and!.
        -- by destruct (_connected b).
        -- simpl. split; [lia | by right].
        -- cbn [emitted with_reconnectTimer with_emitted]. apply Forall_app.
           split; [done |]. constructor; [| constructor].
           exists (k + 1)%Z. split_and!; [done | lia | done].
        -- cbn [reconnectTimer with_reconnectTimer timer_ok delay].
           apply backoff_bounds. lia.
    + unfold bounded, step, onerror, modify. simpl. by split_and!.
    + unfold step. destruct (enabled TimerFires b); [| done].
      unfold bounded. simpl. split_and!; try done. by apply timer_ok_retired.
Qed.

Lemma bounded_run mx ops b : bounded mx b → bounded mx (run ops b).
Proof.
  revert b. induction ops as [|op ops IH]; intros b Hb; [done |].
  simpl. by apply IH, bounded_step.
Qed.

(** Along every run of a new client, a [reconnecting] event carries an
    attempt number from 1 up to [maxReconnectAttempts] (none at all when
    that is 0 or less), the attempt counter stays within the same bound,
    and a reconnection timer waits between 1000 and 30000 ms. *)
Theorem reconnect_attempts_are_bounded (url : string) (mx : option JsNum)
    (ops : list Op) :
  let b := run ops (new url mx) in
  (∀ a, reconnecting a ∈ emitted b →
        ∃ k, a = Num k ∧ (1 ≤ k)%Z
             ∧ ∀ m, default Infinity mx = Num m → (k ≤ m)%Z)
  ∧ (∀ t, reconnectTimer b = Some t → (1000 ≤ delay t ≤ 30000)%Z)
  ∧ (∀ k, reconnectAttempt b = Num k →
          (0 ≤ k)%Z ∧ ∀ m, default Infinity mx = Num m → (k ≤ Z.max 0 m)%Z).
Proof.
  cbv zeta.
  assert (bounded (default Infinity mx) (new url mx)) as Hb.
  { unfold bounded. simpl. split_and!; try done. by left. }
  destruct (bounded_run _ ops _ Hb) as (Hmx & Ha & He & Ht).
  split_and!.
  - intros a Hin. rewrite Forall_forall in He.
    destruct (He _ Hin) as (k & -> & Hk & Hge). exists k.
    split_and!; [done | done |]. intros m Hm. rewrite Hm in Hge. simpl in Hge. lia.
  - intros t Hsome. by rewrite Hsome in Ht.
  - intros k Hk. rewrite Hk in Ha. destruct Ha as [Hk0 Hcase].
    split; [done |]. intros m Hm. destruct Hcase as [-> | Hge]; [lia |].
    rewrite Hm in Hge. simpl in Hge. lia.
Qed.

(** ** The client with lifecycle listeners *)




Lemma lift_state {A} (m : M Broadcast A) s :
  (lift m s).2 = with_client (m (client s)).2 s.
Proof. done. Qed.














End ClientFacts.
